(** * Magic Christmas Tree: particle choreography and interaction engine

    A shallow embedding of the placement functions ([js/entities/ornaments.js],
    [js/utils/geometry-helpers.js]), the snow physics
    ([js/entities/spiral-ribbon.js]), the gesture classifier and its
    debounce ([onHandResults], [detectGesture]), and the transition state
    machine ([js/animations/*.js], [toggleState]).

    Numbers: JavaScript doubles are modelled by exact rationals [Q], except
    where a claim is about non-finite results (the snow forces, which use the
    [num] type below with NaN and infinities), and the tree height curve,
    which needs [Math.pow] with a fractional exponent and is modelled in [R].
    [Math.random()] is modelled as an explicit list of draws, consumed in the
    order the source calls it. *)

From Stdlib Require Import QArith Qround Qabs Lia ZArith List Bool.
From Stdlib Require Import Reals Rpower Qreals Lra Lqa.
Import ListNotations.

(** Linear arithmetic over [Q] and over [R]. *)
Ltac qlra := Stdlib.micromega.Lqa.lra.
Ltac rlra := Stdlib.micromega.Lra.lra.
Ltac qnra := Stdlib.micromega.Lqa.nra.
Ltac rnra := Stdlib.micromega.Lra.nra.

(** Every draw of a concrete list of [Math.random()] values is in [[0, 1)]. *)
Ltac draws01 :=
  repeat (apply Forall_cons; [split; first [qlra | rlra] |]); apply Forall_nil.

(** ** Configuration ([CONFIG] in js/config.js, here js/scene/camera.js) *)

Record Config := mkConfig {
  ornamentCount : nat;
  snowCount : nat;
  treeHeight : Q;
  treeBaseRadius : Q;
  scatterRadius : Q;
  animationDuration : Q;            (* seconds *)
  gestureDebounceTime : Q;          (* milliseconds *)
  snowInteractionRadius : Q;
  snowWaveRadius : Q;
  snowSpiralRadius : Q
}.

Definition CONFIG : Config := {|
  ornamentCount := 400;
  snowCount := 700;
  treeHeight := 20;
  treeBaseRadius := 8;
  scatterRadius := 50;
  animationDuration := 18 # 10;
  gestureDebounceTime := 1000;
  snowInteractionRadius := 5;
  snowWaveRadius := 15;
  snowSpiralRadius := 8
|}.

(** Strict comparison of rationals as a boolean (JavaScript [<]). *)
Definition Qltb (a b : Q) : bool := negb (Qle_bool b a).

(** ** PlacementEngine: [calculateTreePosition] (ornaments.js, lines 14-55) *)

Module Placement.
Open Scope R_scope.

(** [Math.pow(x, y)] for the arguments the source passes: a non-negative
    base [index / total]. [Math.pow(0, y) = 0] for [y > 0]. *)
Definition Math_pow (x y : R) : R :=
  if Rlt_dec 0 x then Rpower x y else 0.

(** [calculateTreePosition(index, total, CONFIG)]. The two [Math.random()]
    values of the call are [rnd_theta] (the azimuth draw) and [rnd_jitter]
    (the radial jitter draw), in source order. *)
Definition calculateTreePosition (index total : nat) (cfg : Config)
    (rnd_theta rnd_jitter : R) : R * R * R :=
  let H := Q2R (treeHeight cfg) in
  let R_base := Q2R (treeBaseRadius cfg) in
  let t := INR index / INR total in
  let t_weighted := Math_pow t 1.7 in
  let y_local := t_weighted * H in
  let y := y_local - H / 2 in
  let r_at_y := R_base * (1 - y_local / H) in
  let theta := rnd_theta * PI * 2 in
  let r_random :=
    if Rlt_dec y (-5) then r_at_y * (0.7 + rnd_jitter * 0.5)
    else if Rlt_dec 5 y then r_at_y * (0.85 + rnd_jitter * 0.3)
    else r_at_y * (0.8 + rnd_jitter * 0.4) in
  let x := r_random * cos theta in
  let z := r_random * sin theta in
  (x, y, z).

Definition tree_y (p : R * R * R) : R := snd (fst p).

End Placement.

(** ** PlacementEngine: rejection sampling in a sphere *)

Module Scatter.
Open Scope Q_scope.

Record vec3 := mkVec3 { vx : Q; vy : Q; vz : Q }.

Definition norm2 (v : vec3) : Q := vx v * vx v + vy v * vy v + vz v * vz v.

(** The [do { ... } while (x*x + y*y + z*z > radius * radius)] loop of
    [calculateScatterPosition] (ornaments.js, lines 62-74): each round draws
    three [Math.random()] values. The result carries the unused draws;
    [None] when the list of draws runs out before a candidate is accepted. *)
Fixpoint calculateScatterPosition_loop (radius : Q) (rs : list Q)
    : option (vec3 * list Q) :=
  match rs with
  | a :: b :: c :: rest =>
      let x := (a - 0.5) * 2 * radius in
      let y := (b - 0.5) * 2 * radius in
      let z := (c - 0.5) * 2 * radius in
      if Qltb (radius * radius) (x*x + y*y + z*z)
      then calculateScatterPosition_loop radius rest
      else Some (mkVec3 x y z, rest)
  | _ => None
  end.

Definition calculateScatterPosition (cfg : Config) (rs : list Q)
    : option (vec3 * list Q) :=
  calculateScatterPosition_loop (scatterRadius cfg) rs.

(** [randomInSphere(radius)] (geometry-helpers.js, lines 12-21), the same
    loop written a second time in the source. *)
Fixpoint randomInSphere (radius : Q) (rs : list Q) : option (vec3 * list Q) :=
  match rs with
  | a :: b :: c :: rest =>
      let x := (a - 0.5) * 2 * radius in
      let y := (b - 0.5) * 2 * radius in
      let z := (c - 0.5) * 2 * radius in
      if Qltb (radius * radius) (x*x + y*y + z*z)
      then randomInSphere radius rest
      else Some (mkVec3 x y z, rest)
  | _ => None
  end.

End Scatter.

(** ** JavaScript numbers with NaN and infinities

    [Fin q] is a finite double (as an exact rational), [Inf false] is
    [Infinity], [Inf true] is [-Infinity]. The operations follow IEEE 754 on
    these values (signed zeros are not distinguished: a zero divisor is
    [+0]). *)

Module JsNum.
Open Scope Q_scope.

Inductive num := Fin (q : Q) | NaN | Inf (neg : bool).

Definition nneg (a : num) : num :=
  match a with Fin q => Fin (- q) | NaN => NaN | Inf s => Inf (negb s) end.

Definition nadd (a b : num) : num :=
  match a, b with
  | Fin p, Fin q => Fin (p + q)
  | NaN, _ | _, NaN => NaN
  | Inf s, Fin _ | Fin _, Inf s => Inf s
  | Inf s, Inf t => if Bool.eqb s t then Inf s else NaN
  end.

Definition nsub (a b : num) : num := nadd a (nneg b).

Definition nmul (a b : num) : num :=
  match a, b with
  | Fin p, Fin q => Fin (p * q)
  | NaN, _ | _, NaN => NaN
  | Inf s, Fin q | Fin q, Inf s =>
      if Qeq_bool q 0 then NaN else Inf (xorb s (Qltb q 0))
  | Inf s, Inf t => Inf (xorb s t)
  end.

Definition ndiv (a b : num) : num :=
  match a, b with
  | Fin p, Fin q =>
      if Qeq_bool q 0
      then (if Qeq_bool p 0 then NaN else Inf (Qltb p 0))
      else Fin (p / q)
  | NaN, _ | _, NaN => NaN
  | Fin _, Inf _ => Fin 0
  | Inf s, Fin q => Inf (xorb s (Qltb q 0))
  | Inf _, Inf _ => NaN
  end.

(** JavaScript [a < b]. *)
Definition nlt (a b : num) : bool :=
  match a, b with
  | Fin p, Fin q => Qltb p q
  | NaN, _ | _, NaN => false
  | Inf true, Inf true => false
  | Inf true, _ => true
  | _, Inf false => match a with Inf false => false | _ => true end
  | _, _ => false
  end.

(** Square root of a non-negative rational: exact on squares of rationals,
    rounded down otherwise. *)
Definition Qsqrt (q : Q) : Q :=
  let q' := Qred q in Z.sqrt (Qnum q' * Zpos (Qden q')) # Qden q'.

(** [Math.sqrt]. *)
Definition nsqrt (a : num) : num :=
  match a with
  | Fin q => if Qltb q 0 then NaN else Fin (Qsqrt q)
  | Inf false => Inf false
  | Inf true => NaN
  | NaN => NaN
  end.

Definition is_finite (a : num) : bool :=
  match a with Fin _ => true | _ => false end.

Definition is_nan (a : num) : bool :=
  match a with NaN => true | _ => false end.

End JsNum.

(** ** SnowField ([js/entities/spiral-ribbon.js], lines 259-336) *)

Module Snow.
Import JsNum.
Open Scope Q_scope.

(** Three consecutive entries of the position [Float32Array], or a
    velocity object [{x, y, z}]. *)
Record nvec := mkN { nx : num; ny : num; nz : num }.

(** [array[i] = a] on an index inside the array. *)
Fixpoint list_set {A} (l : list A) (n : nat) (a : A) : list A :=
  match l, n with
  | [], _ => []
  | _ :: t, O => a :: t
  | h :: t, S n => h :: list_set t n a
  end.

(** [Math.sqrt(dx * dx + dy * dy + dz * dz)]. *)
Definition distance3 (dx dy dz : num) : num :=
  nsqrt (nadd (nadd (nmul dx dx) (nmul dy dy)) (nmul dz dz)).

(** One iteration of the loop of [updateSnowSystem] (lines 265-299) on the
    particle at position [p] with velocity [v]. The respawn draws four
    [Math.random()] values from [rs]; [None] when they are missing. *)
Definition snowStep (cfg : Config) (handDetected : bool) (handPosition : nvec)
    (p v : nvec) (rs : list Q) : option (nvec * nvec * list Q) :=
  (* Apply velocity *)
  let p1 := mkN (nadd (nx p) (nx v)) (nadd (ny p) (ny v)) (nadd (nz p) (nz v)) in
  (* Hand interaction - blow away snow *)
  let v1 :=
    if handDetected then
      let dx := nsub (nx p1) (nx handPosition) in
      let dy := nsub (ny p1) (ny handPosition) in
      let dz := nsub (nz p1) (nz handPosition) in
      let distance := distance3 dx dy dz in
      let R := Fin (snowInteractionRadius cfg) in
      if nlt distance R then
        let force := ndiv (nsub R distance) R in
        mkN (nadd (nx v) (nmul (nmul (ndiv dx distance) force) (Fin 0.2)))
            (ny v)
            (nadd (nz v) (nmul (nmul (ndiv dz distance) force) (Fin 0.2)))
      else v
    else v in
  (* Decay horizontal velocity *)
  let v2 := mkN (nmul (nx v1) (Fin 0.98)) (ny v1) (nmul (nz v1) (Fin 0.98)) in
  (* Reset if fallen below ground *)
  if nlt (ny p1) (Fin (-10)) then
    match rs with
    | r1 :: r2 :: r3 :: r4 :: rest =>
        Some (mkN (Fin ((r1 - 0.5) * 100)) (Fin (r2 * 30 + 50)) (Fin ((r3 - 0.5) * 100)),
              mkN (Fin 0) (Fin (- (r4 * 0.06 + 0.02))) (Fin 0), rest)
    | _ => None
    end
  else Some (p1, v2, rs).

Fixpoint updateSnowSystem_loop (cfg : Config) (handDetected : bool)
    (handPosition : nvec) (fuel i : nat) (pos vel : list nvec) (rs : list Q)
    : option (list nvec * list nvec * list Q) :=
  match fuel with
  | O => Some (pos, vel, rs)
  | S fuel' =>
      match nth_error pos i, nth_error vel i with
      | Some p, Some v =>
          match snowStep cfg handDetected handPosition p v rs with
          | Some (p', v', rs') =>
              updateSnowSystem_loop cfg handDetected handPosition fuel' (S i)
                (list_set pos i p') (list_set vel i v') rs'
          | None => None
          end
      | _, _ => None
      end
  end.

(** [updateSnowSystem(snowParticles, snowVelocities, snowCount,
    handDetected, handPosition, CONFIG)]: [for (let i = 0; i < snowCount; i++)]. *)
Definition updateSnowSystem (pos vel : list nvec) (snowCount : nat)
    (handDetected : bool) (handPosition : nvec) (cfg : Config) (rs : list Q)
    : option (list nvec * list nvec * list Q) :=
  updateSnowSystem_loop cfg handDetected handPosition snowCount 0 pos vel rs.

(** [Math.floor(Math.random() * snowCount)]. *)
Definition waveIndex (snowCount : nat) (r : Q) : nat :=
  Z.to_nat (Qfloor (r * inject_Z (Z.of_nat snowCount))).

(** The impulse of [createSnowWave] (lines 329-333) on velocity [v], for the
    direction [dx], [dz] and the distance. *)
Definition waveKick (v : nvec) (dx dz distance : num) : nvec :=
  let force := Fin 0.5 in
  mkN (nadd (nx v) (nmul (ndiv dx distance) force))
      (nadd (ny v) (Fin 0.3))
      (nadd (nz v) (nmul (ndiv dz distance) force)).

(** One iteration of the loop of [createSnowWave] for the draw [r]. A
    position read out of range is [undefined]: the distance is [NaN] and the
    test [distance < CONFIG.snowWaveRadius] fails. *)
Definition waveDraw (cfg : Config) (snowCount : nat) (position : nvec)
    (pos vel : list nvec) (r : Q) : list nvec :=
  let randomIndex := waveIndex snowCount r in
  match nth_error pos randomIndex with
  | Some p =>
      let dx := nsub (nx p) (nx position) in
      let dy := nsub (ny p) (ny position) in
      let dz := nsub (nz p) (nz position) in
      let distance := distance3 dx dy dz in
      if nlt distance (Fin (snowWaveRadius cfg)) then
        match nth_error vel randomIndex with
        | Some v => list_set vel randomIndex (waveKick v dx dz distance)
        | None => vel
        end
      else vel
  | None => vel
  end.

Fixpoint createSnowWave_loop (cfg : Config) (snowCount : nat) (position : nvec)
    (n : nat) (pos vel : list nvec) (rs : list Q)
    : option (list nvec * list Q) :=
  match n with
  | O => Some (vel, rs)
  | S n' =>
      match rs with
      | [] => None
      | r :: rs' =>
          createSnowWave_loop cfg snowCount position n' pos
            (waveDraw cfg snowCount position pos vel r) rs'
      end
  end.

(** [createSnowWave(snowParticles, snowVelocities, snowCount, position,
    CONFIG)]: [for (let i = 0; i < Math.min(200, snowCount); i++)]. Only
    velocities change; the result is the new velocity array and the unused
    draws. *)
Definition createSnowWave (pos vel : list nvec) (snowCount : nat)
    (position : nvec) (cfg : Config) (rs : list Q)
    : option (list nvec * list Q) :=
  createSnowWave_loop cfg snowCount position (Nat.min 200 snowCount) pos vel rs.

(** How many of the first [n] draws of [rs] pick particle [i] in
    [createSnowWave]. *)
Fixpoint draws_of (snowCount i n : nat) (rs : list Q) : nat :=
  match n, rs with
  | S n', r :: rs' =>
      (if Nat.eqb (waveIndex snowCount r) i then 1 else 0)
      + draws_of snowCount i n' rs'
  | _, _ => 0
  end.

(** A value of [Math.random()] for which [createSnowWave] picks particle
    [j]: [j / snowCount]. *)
Definition draw_for (sc j : nat) : Q := inject_Z (Z.of_nat j) / inject_Z (Z.of_nat sc).

End Snow.

(** ** GestureClassifier: [detectGesture] (hand-tracking.js, part_000 lines 584-625) *)

Module Gesture.
Open Scope Q_scope.

(** The strings ['fist'], ['open'] and ['partial'] returned by
    [detectGesture]. *)
Inductive gesture := Fist | Open | Partial.

Definition gesture_eqb (a b : gesture) : bool :=
  match a, b with
  | Fist, Fist | Open, Open | Partial, Partial => true
  | _, _ => false
  end.

(** [gesture !== lastGesture], where [lastGesture] starts as [null]. *)
Definition last_eqb (a b : option gesture) : bool :=
  match a, b with
  | Some a, Some b => gesture_eqb a b
  | None, None => true
  | _, _ => false
  end.

(** A MediaPipe landmark in normalized image coordinates. *)
Record landmark := mkLm { lx : Q; ly : Q }.

(** MediaPipe hand frames carry 21 landmarks; the default is never read on
    them. *)
Definition lm0 : landmark := mkLm 0 0.

Definition fingerTips : list nat := [4; 8; 12; 16; 20]%nat.
Definition fingerPIPs : list nat := [3; 6; 10; 14; 18]%nat.
Definition fingerMCPs : list nat := [2; 5; 9; 13; 17]%nat.

Definition detectGesture (landmarks : list landmark) : gesture :=
  let thumbTip := nth 4 landmarks lm0 in
  (* Thumb is extended if tip is far from palm center *)
  let palmCenter := nth 0 landmarks lm0 in
  let thumbExtended := Qltb 0.1 (Qabs (lx thumbTip - lx palmCenter)) in
  let fingersExtended := if thumbExtended then 1%nat else 0%nat in
  (* Check other 4 fingers: for (let i = 1; i < 5; i++) *)
  let fingersExtended :=
    fold_left
      (fun n i =>
         let tipY := ly (nth (nth i fingerTips 0%nat) landmarks lm0) in
         let pipY := ly (nth (nth i fingerPIPs 0%nat) landmarks lm0) in
         if Qltb tipY (pipY - 0.02) then S n else n)
      (seq 1 4)%nat fingersExtended in
  if Nat.leb 4%nat fingersExtended then Open
  else if Nat.leb fingersExtended 1%nat then Fist
  else Partial.

End Gesture.

(** ** ChoreographyStateMachine ([js/animations/*.js], [toggleState]) and the
    gesture debounce ([onHandResults])

    Time is the [Date.now()] clock in milliseconds. GSAP tweens are records
    of their start time, duration and target; a [setTimeout] is the time it
    fires. The top star, the star light and the ribbon opacity tweens are
    not recorded: they move no ornament. *)

Module Choreo.
Import Scatter Gesture.
Open Scope Q_scope.

Record ornament := mkOrn {
  position : vec3;          (* the mesh position when it was created *)
  treePosition : vec3;      (* userData.treePosition, the gather target *)
  scatterPosition : vec3    (* userData.scatterPosition *)
}.

Record tween := mkTween {
  tw_index : nat;           (* the ornament the tween moves *)
  tw_start : Q;             (* creation time + delay *)
  tw_duration : Q;
  tw_to : vec3
}.

(** Tweens of [gatherAll] (gather.js lines 29-40): ornament [i] moves to its
    [treePosition] with [delay: index * 0.002] seconds. *)
Fixpoint gather_tweens (now : Q) (cfg : Config) (i : nat)
    (orns : list ornament) : list tween :=
  match orns with
  | [] => []
  | o :: os =>
      mkTween i (now + inject_Z (Z.of_nat i) * 0.002 * 1000)
        (animationDuration cfg * 1000) (treePosition o)
      :: gather_tweens now cfg (S i) os
  end.

(** [gatherAll]: the tweens and the time its promise resolves, at the end of
    the 0.5 s ribbon opacity tween started by [setTimeout(...,
    CONFIG.animationDuration * 500)]. *)
Definition gatherAll (now : Q) (orns : list ornament) (cfg : Config)
    : list tween * Q :=
  (gather_tweens now cfg 0 orns, now + animationDuration cfg * 500 + 0.5 * 1000).

(** Loop of [scatterAll] (scatter.js lines 28-42): a fresh scatter position
    per ornament, then its tween. *)
Fixpoint scatter_tweens (now : Q) (cfg : Config) (i : nat)
    (orns : list ornament) (rs : list Q)
    : option (list ornament * list tween * list Q) :=
  match orns with
  | [] => Some ([], [], rs)
  | o :: os =>
      match calculateScatterPosition cfg rs with
      | None => None
      | Some (sp, rs1) =>
          match scatter_tweens now cfg (S i) os rs1 with
          | None => None
          | Some (os', tws, rs2) =>
              Some (mkOrn (position o) (treePosition o) sp :: os',
                    mkTween i (now + inject_Z (Z.of_nat i) * 0.002 * 1000)
                      (animationDuration cfg * 1000) sp :: tws,
                    rs2)
          end
      end
  end.

(** [scatterAll]: it resolves at the end of the 0.3 s ribbon fade-out. *)
Definition scatterAll (now : Q) (orns : list ornament) (cfg : Config)
    (rs : list Q) : option (list ornament * list tween * Q * list Q) :=
  match scatter_tweens now cfg 0 orns rs with
  | Some (os, tws, rs') => Some (os, tws, now + 0.3 * 1000, rs')
  | None => None
  end.

(** Global state of main.js and hand-tracking.js. *)
Record app := mkApp {
  isGathered : bool;              (* isGathered.value *)
  animating : bool;               (* animationState.animating *)
  shown : bool;                   (* target of the last transition started *)
  clear_at : option Q;            (* pending setTimeout clearing animating *)
  ornaments : list ornament;
  tweens : list tween;            (* every tween created, oldest first *)
  rng : list Q;                   (* the Math.random() values still to come *)
  lastGesture : option gesture;
  lastGestureTime : Q
}.

Definition set_isGathered (b : bool) (s : app) : app :=
  mkApp b (animating s) (shown s) (clear_at s) (ornaments s) (tweens s)
    (rng s) (lastGesture s) (lastGestureTime s).

Definition set_lastGesture (g : option gesture) (s : app) : app :=
  mkApp (isGathered s) (animating s) (shown s) (clear_at s) (ornaments s)
    (tweens s) (rng s) g (lastGestureTime s).

Definition set_lastGestureTime (t : Q) (s : app) : app :=
  mkApp (isGathered s) (animating s) (shown s) (clear_at s) (ornaments s)
    (tweens s) (rng s) (lastGesture s) t.

(** [transitionState(toGathered, ..., CONFIG, animationState)]
    (transitions.js lines 21-41). The timer that clears [animating] is set
    when the awaited animation resolves, for [CONFIG.animationDuration * 1000]
    milliseconds. [None] only when the model's list of random draws runs out
    during [scatterAll]. *)
Definition transitionState (cfg : Config) (now : Q) (toGathered : bool)
    (s : app) : option app :=
  if animating s then Some s
  else if toGathered then
    let '(tws, resolved) := gatherAll now (ornaments s) cfg in
    Some (mkApp (isGathered s) true true
            (Some (resolved + animationDuration cfg * 1000))
            (ornaments s) (tweens s ++ tws) (rng s)
            (lastGesture s) (lastGestureTime s))
  else
    match scatterAll now (ornaments s) cfg (rng s) with
    | Some (os, tws, resolved, rs) =>
        Some (mkApp (isGathered s) true false
                (Some (resolved + animationDuration cfg * 1000))
                os (tweens s ++ tws) rs
                (lastGesture s) (lastGestureTime s))
    | None => None
    end.

(** [toggleState()] (main.js, part_000 lines 289-292). *)
Definition toggleState (cfg : Config) (now : Q) (s : app) : option app :=
  let s1 := set_isGathered (negb (isGathered s)) s in
  transitionState cfg now (isGathered s1) s1.

(** The event loop reaching time [t]: the pending [setTimeout] of
    [transitionState] fires if it is due. *)
Definition advance (t : Q) (s : app) : app :=
  match clear_at s with
  | Some c =>
      if Qle_bool c t
      then mkApp (isGathered s) false (shown s) None (ornaments s) (tweens s)
             (rng s) (lastGesture s) (lastGestureTime s)
      else s
  | None => s
  end.

(** [CONFIG.animationEase = "back.out(1.2)"]: GSAP's
    [p => (p - 1)^2 * ((s + 1) * (p - 1) + s) + 1]. *)
Definition animationEase (p : Q) : Q :=
  let s := 1.2 in let p1 := p - 1 in p1 * p1 * ((s + 1) * p1 + s) + 1.

Definition lerp (a b : vec3) (e : Q) : vec3 :=
  mkVec3 (vx a + (vx b - vx a) * e) (vy a + (vy b - vy a) * e)
         (vz a + (vz b - vz a) * e).

(** Value a tween writes at time [t]: its target once completed. An
    in-progress tween is drawn from [from], the value the earlier tweens give
    at [t] (GSAP records the value at the tween's first frame; both agree
    once the tween has completed). *)
Definition tween_value (tw : tween) (from : vec3) (t : Q) : vec3 :=
  if Qle_bool (tw_start tw + tw_duration tw) t then tw_to tw
  else lerp from (tw_to tw)
         (animationEase ((t - tw_start tw) / tw_duration tw)).

(** GSAP renders every started tween in creation order
    ([overwrite: false]). *)
Definition render_index (t : Q) (tws : list tween) (i : nat) (p0 : vec3) : vec3 :=
  fold_left
    (fun p tw =>
       if Nat.eqb (tw_index tw) i && Qle_bool (tw_start tw) t
       then tween_value tw p t else p)
    tws p0.

(** [ornaments[i].position] at time [t]. *)
Definition position_at (t : Q) (s : app) (i : nat) : option vec3 :=
  match nth_error (ornaments s) i with
  | Some o => Some (render_index t (tweens s) i (position o))
  | None => None
  end.

(** Calls made by [onHandResults]: the snow effects
    ([createSnowSpiral], [createSnowWave], see [Snow]) and the
    [transitionState] requests. *)
Inductive action := ASpiral | AWave | AGather | AScatter.

(** A discrete, debounced action (everything but the held-fist spiral). *)
Definition discrete (a : action) : bool :=
  match a with ASpiral => false | _ => true end.

(** [onHandResults(results, ...)] (part_000 lines 515-574): [frame] is
    [results.multiHandLandmarks[0]] when a hand is present, [now] is
    [Date.now()]. *)
Definition onHandResults (cfg : Config) (now : Q)
    (frame : option (list landmark)) (s : app) : option (app * list action) :=
  match frame with
  | None => Some (s, [])
  | Some landmarks =>
      let gesture := detectGesture landmarks in
      (* Continuous spiral effect when fist is held *)
      let spiral := if gesture_eqb gesture Fist then [ASpiral] else [] in
      if negb (last_eqb (Some gesture) (lastGesture s))
         && Qltb (gestureDebounceTime cfg) (now - lastGestureTime s) then
        if gesture_eqb gesture Fist && negb (isGathered s) && negb (animating s) then
          match transitionState cfg now true (set_isGathered true s) with
          | Some s1 =>
              Some (set_lastGesture (Some gesture) (set_lastGestureTime now s1),
                    spiral ++ [AGather])
          | None => None
          end
        else if gesture_eqb gesture Open && isGathered s && negb (animating s) then
          match transitionState cfg now false (set_isGathered false s) with
          | Some s1 =>
              Some (set_lastGesture (Some gesture) (set_lastGestureTime now s1),
                    spiral ++ [AScatter; AWave])
          | None => None
          end
        else if gesture_eqb gesture Open then
          Some (set_lastGesture (Some gesture) (set_lastGestureTime now s),
                spiral ++ [AWave])
        else Some (set_lastGesture (Some gesture) s, spiral)
      else Some (s, spiral)
  end.

(** A frame triggered a discrete action. *)
Definition triggered (acts : list action) : bool := existsb discrete acts.

Definition is_gather (a : action) : bool :=
  match a with AGather => true | _ => false end.

(** The [handsDetector.onResults] callback run on successive frames. *)
Fixpoint runHand (cfg : Config) (frames : list (Q * option (list landmark)))
    (s : app) : option (app * list action) :=
  match frames with
  | [] => Some (s, [])
  | (t, f) :: fs =>
      match onHandResults cfg t f s with
      | Some (s1, a1) =>
          match runHand cfg fs s1 with
          | Some (s2, a2) => Some (s2, a1 ++ a2)
          | None => None
          end
      | None => None
      end
  end.

End Choreo.

(** ** Claim-side definitions *)

Module GestureSpec.
Import Gesture.
Open Scope Q_scope.

(** The classifier as the specification words it: thumb extended iff the
    horizontal distance of its tip from the wrist exceeds 0.1, each other
    finger extended iff its tip's [y] is less than its PIP joint's [y] minus
    0.02; [>= 4] extended is Open, [<= 1] is Fist, otherwise Partial. *)
Definition thumb_extended (lms : list landmark) : bool :=
  Qltb 0.1 (Qabs (lx (nth 4 lms lm0) - lx (nth 0 lms lm0))).

Definition finger_extended (lms : list landmark) (tip pip : nat) : bool :=
  Qltb (ly (nth tip lms lm0)) (ly (nth pip lms lm0) - 0.02).

Definition extended_count (lms : list landmark) : nat :=
  Nat.b2n (thumb_extended lms) + Nat.b2n (finger_extended lms 8 6)
  + Nat.b2n (finger_extended lms 12 10) + Nat.b2n (finger_extended lms 16 14)
  + Nat.b2n (finger_extended lms 20 18).

Definition classify (n : nat) : gesture :=
  if Nat.leb 4 n then Open else if Nat.leb n 1 then Fist else Partial.

End GestureSpec.

(** ** The light wave of the spiral ribbon: [updateSpiralRibbon]
    (spiral-ribbon.js lines 146-183) *)

Module RibbonLight.
Open Scope Q_scope.

(** [Math.trunc] on a rational. *)
Definition Qtrunc (q : Q) : Z :=
  if Qle_bool 0 q then Qfloor q else Z.opp (Qfloor (- q)).

(** JavaScript [a % b] for [b <> 0]: the remainder of the truncated
    division, with the sign of [a]. *)
Definition jsmod (a b : Q) : Q := a - b * inject_Z (Qtrunc (a / b)).

(** [const wavePosition = ((time * speed) % (H + waveLength)) - H / 2 -
    waveLength], with [speed = 0.8] and [waveLength = 5]. *)
Definition wavePosition (time H : Q) : Q :=
  let speed := 0.8 in
  let waveLength := 5 in
  jsmod (time * speed) (H + waveLength) - H / 2 - waveLength.

(** The falloff of the loop body: [Math.pow(intensity, 3)] inside half a
    wave length, 0 outside. *)
Definition intensity_of (distance : Q) : Q :=
  let waveLength := 5 in
  if Qltb distance (waveLength / 2) then
    let intensity := 1 - distance / (waveLength / 2) in
    intensity * intensity * intensity
  else 0.

(** The ribbon's [visible] flag and the [position], [size] and [alpha]
    attribute arrays ([Float32Array]s; a write out of range is ignored, as
    [Snow.list_set] does). *)
Record ribbon := mkRibbon {
  visible : bool;
  positions : list Q;
  sizes : list Q;
  alphas : list Q
}.

(** [updateSpiralRibbon(spiralRibbon, time, CONFIG)], for
    [CONFIG.spiralDotCount = spiralDotCount]. A [y] read out of range is
    [undefined]: the distance is [NaN], the test fails, the intensity is 0. *)
Definition updateSpiralRibbon (rb : ribbon) (time : Q) (spiralDotCount : nat)
    (cfg : Config) : ribbon :=
  if negb (visible rb) then rb else
  let H := treeHeight cfg in
  let wp := wavePosition time H in
  let '(sz, al) :=
    fold_left
      (fun acc i =>
         let intensity :=
           match nth_error (positions rb) (i * 3 + 1) with
           | Some y => intensity_of (Qabs (y - wp))
           | None => 0
           end in
         (Snow.list_set (fst acc) i (0.5 + intensity * 2.5),
          Snow.list_set (snd acc) i (0.5 + intensity * 0.5)))
      (seq 0 spiralDotCount) (sizes rb, alphas rb) in
  mkRibbon (visible rb) (positions rb) sz al.

End RibbonLight.

(** ** Snow creation: [createSnowSystem] (spiral-ribbon.js lines 198-248) *)

Module SnowInit.
Import JsNum Snow.
Open Scope Q_scope.

(** One iteration of the loop: five [Math.random()] draws, for [x], [y],
    [z], the size and the falling speed. *)
Definition snowParticle (rs : list Q) : option (nvec * Q * nvec * list Q) :=
  match rs with
  | r1 :: r2 :: r3 :: r4 :: r5 :: rest =>
      Some (mkN (Fin ((r1 - 0.5) * 100)) (Fin (r2 * 80 - 10)) (Fin ((r3 - 0.5) * 100)),
            r4 * 0.6 + 0.2,
            mkN (Fin 0) (Fin (- (r5 * 0.06 + 0.02))) (Fin 0),
            rest)
  | _ => None
  end.

Fixpoint createSnowSystem_loop (n : nat) (rs : list Q)
    : option (list nvec * list Q * list nvec * list Q) :=
  match n with
  | O => Some ([], [], [], rs)
  | S n' =>
      match snowParticle rs with
      | None => None
      | Some (p, sz, v, rs1) =>
          match createSnowSystem_loop n' rs1 with
          | None => None
          | Some (ps, szs, vs, rs2) => Some (p :: ps, sz :: szs, v :: vs, rs2)
          end
      end
  end.

(** [createSnowSystem(scene, CONFIG, createSnowTexture)]: the positions, the
    [snowSizes] and the [snowVelocities], and the draws left. *)
Definition createSnowSystem (cfg : Config) (rs : list Q)
    : option (list nvec * list Q * list nvec * list Q) :=
  createSnowSystem_loop (snowCount cfg) rs.


End SnowInit.

(** ** [stopHandTracking()] (hand-tracking.js, part_000 lines 473-484):
    camera and detector are closed, [lastGesture = null]. *)

Module HandTracking.
Import Choreo.

Definition stopHandTracking (s : app) : app := set_lastGesture None s.

End HandTracking.

(** ** Shapes in [R]: [randomOnCone] (geometry-helpers.js lines 30-40), the
    points of [createSpiralRibbon] (spiral-ribbon.js lines 66-84), the star
    and its dust (ornaments.js lines 237-388) and [createSnowSpiral]
    (spiral-ribbon.js lines 346-369). Values stored in [Float32Array]s are
    kept exact, as for the other typed arrays of this development. *)

Module Shapes.
Open Scope R_scope.

(** [randomOnCone(height, baseRadius, t)], [rnd] its [Math.random()]. *)
Definition randomOnCone (height baseRadius t rnd : R) : R * R * R :=
  let y_local := t * height in
  let y := y_local - height / 2 in
  let r := baseRadius * (1 - y_local / height) in
  let theta := rnd * PI * 2 in
  let x := r * cos theta in
  let z := r * sin theta in
  (x, y, z).

(** Point [i] of the loop of [createSpiralRibbon] (lines 72-84), for
    [CONFIG.spiralDotCount = spiralDotCount]. *)
Definition spiralPoint (cfg : Config) (spiralDotCount i : nat) : R * R * R :=
  let H := Q2R (treeHeight cfg) in
  let R_base := Q2R (treeBaseRadius cfg) in
  let turns := 5 in
  let t := INR i / INR spiralDotCount in
  let y_local := t * H in
  let y := y_local - H / 2 in
  let r := R_base * (1 - y_local / H) * 0.9 in
  let theta := t * turns * PI * 2 in
  let x := r * cos theta in
  let z := r * sin theta in
  (x, y, z).

(** The ribbon [createSpiralRibbon] returns: its points, the [size] and
    [alpha] arrays, and [visible]. *)
Record ribbonInit := mkRibbonInit {
  rpoints : list (R * R * R);
  rsizes : list R;
  ralphas : list R;
  rvisible : bool
}.

Definition createSpiralRibbon (cfg : Config) (spiralDotCount : nat) : ribbonInit :=
  mkRibbonInit (map (spiralPoint cfg spiralDotCount) (seq 0 spiralDotCount))
    (repeat 0.5 spiralDotCount) (repeat 0.5 spiralDotCount) false.

(** Vertex [i] of the outline drawn by [createStarGeometry] (lines 240-252). *)
Definition starVertex (outerRadius innerRadius : R) (points i : nat) : R * R :=
  let angle := INR i / INR (points * 2) * PI * 2 in
  let radius := if Nat.eqb (Nat.modulo i 2) 0 then outerRadius else innerRadius in
  let x := cos angle * radius in
  let y := sin angle * radius in
  (x, y).

(** The [moveTo] point and the [lineTo] points, for [i = 0 .. points * 2]. *)
Definition createStarGeometry (outerRadius innerRadius : R) (points : nat)
    : list (R * R) :=
  map (starVertex outerRadius innerRadius points) (seq 0 (points * 2 + 1)).

(** One iteration of the loop of [createStarDust] (lines 330-346): five
    [Math.random()] draws, for the radius, [theta], [phi], the brightness and
    the size. *)
Definition starDustParticle (rs : list R)
    : option (list R * list R * R * list R) :=
  match rs with
  | r1 :: r2 :: r3 :: r4 :: r5 :: rest =>
      let radius := 30 + r1 * 40 in
      let theta := r2 * PI * 2 in
      let phi := r3 * PI in
      let brightness := 0.8 + r4 * 0.2 in
      Some ([radius * sin phi * cos theta; radius * cos phi;
             radius * sin phi * sin theta],
            [brightness; brightness; brightness * 0.8],
            r5 * 2 + 0.5, rest)
  | _ => None
  end.

Fixpoint createStarDust_loop (n : nat) (rs : list R)
    : option (list R * list R * list R * list R) :=
  match n with
  | O => Some ([], [], [], rs)
  | S n' =>
      match starDustParticle rs with
      | None => None
      | Some (p, c, sz, rs1) =>
          match createStarDust_loop n' rs1 with
          | None => None
          | Some (ps, cs, szs, rs2) => Some (p ++ ps, c ++ cs, sz :: szs, rs2)
          end
      end
  end.

(** [createStarDust(scene, CONFIG)] for [CONFIG.starDustCount = starDustCount]:
    the [position], [color] and [size] arrays and the draws left; the
    [originalPositions] it keeps are a copy of the positions. *)
Definition createStarDust (starDustCount : nat) (rs : list R)
    : option (list R * list R * list R * list R) :=
  createStarDust_loop starDustCount rs.

(** The loop of [updateStarDust(starDust, time)] (lines 383-387) from index
    [i]; [fuel] bounds the iterations. Writes past the end of [positions]
    are ignored; [original] is [positions.slice()], of the same length, so
    its reads stay inside it. *)
Fixpoint updateStarDust_loop (fuel i : nat) (time : R) (original positions : list R)
    : list R :=
  match fuel with
  | O => positions
  | S f =>
      if Nat.ltb i (length positions) then
        let p1 := Snow.list_set positions i
                    (nth i original 0 + sin (time + INR i) * 0.5) in
        let p2 := Snow.list_set p1 (i + 1)
                    (nth (i + 1) original 0 + cos (time + INR i) * 0.5) in
        let p3 := Snow.list_set p2 (i + 2)
                    (nth (i + 2) original 0 + sin (time + INR i * 0.5) * 0.5) in
        updateStarDust_loop f (i + 3) time original p3
      else positions
  end.

Definition updateStarDust (time : R) (original positions : list R) : list R :=
  updateStarDust_loop (length positions) 0 time original positions.

(** [Math.atan2(y, x)] (signed zeros are not distinguished). *)
Definition atan2 (y x : R) : R :=
  if Rlt_dec 0 x then atan (y / x)
  else if Rlt_dec x 0 then
    (if Rle_dec 0 y then atan (y / x) + PI else atan (y / x) - PI)
  else if Rlt_dec 0 y then PI / 2
  else if Rlt_dec y 0 then - (PI / 2)
  else 0.

(** One iteration of the loop of [createSnowSpiral(snowParticles,
    snowVelocities, snowCount, position, CONFIG)], [time] being
    [Date.now() * 0.003]. A particle past the end of the positions has
    [undefined] coordinates: the distance is [NaN] and the test fails. A
    velocity read past the end of [snowVelocities] is [undefined]: the
    update throws a [TypeError], [None] here. *)
Definition snowSpiralStep (cfg : Config) (pos : list (R * R * R))
    (position : R * R * R) (time : R) (i : nat) (vel : list (R * R * R))
    : option (list (R * R * R)) :=
  match nth_error pos i with
  | None => Some vel
  | Some (px, py, pz) =>
      let '(hx, hy, hz) := position in
      let dx := px - hx in
      let dy := py - hy in
      let dz := pz - hz in
      let distance := sqrt (dx * dx + dy * dy + dz * dz) in
      let R_sp := Q2R (snowSpiralRadius cfg) in
      if Rlt_dec distance R_sp then
        match nth_error vel i with
        | None => None
        | Some (vx, vy, vz) =>
            let angle := atan2 dz dx + 0.1 in
            let force := (R_sp - distance) / R_sp * 0.1 in
            Some (Snow.list_set vel i
                    (vx + cos angle * force,
                     vy + sin (time + INR i * 0.1) * 0.05,
                     vz + sin angle * force))
        end
      else Some vel
  end.

Fixpoint createSnowSpiral_loop (cfg : Config) (pos : list (R * R * R))
    (position : R * R * R) (time : R) (i n : nat) (vel : list (R * R * R))
    : option (list (R * R * R)) :=
  match n with
  | O => Some vel
  | S n' =>
      match snowSpiralStep cfg pos position time i vel with
      | None => None
      | Some vel1 => createSnowSpiral_loop cfg pos position time (S i) n' vel1
      end
  end.

(** The new [snowVelocities]; [now] is [Date.now()]. *)
Definition createSnowSpiral (pos vel : list (R * R * R)) (snowCount : nat)
    (position : R * R * R) (cfg : Config) (now : R) : option (list (R * R * R)) :=
  let time := now * 0.003 in
  createSnowSpiral_loop cfg pos position time 0 snowCount vel.

End Shapes.

(** ** [createOrnaments(scene, CONFIG)] (ornaments.js lines 82-210) *)

Module OrnamentsInit.
Import Placement Scatter.
Open Scope R_scope.

(** The data of a created mesh: [userData.treePosition] and
    [userData.scatterPosition] (the mesh starts at the latter), the size
    passed to the geometry, the box/sphere choice, the index into
    [colorArray], [userData.rotationSpeed] and [userData.index]. *)
Record meshInit := mkMesh {
  m_treePosition : R * R * R;
  m_scatterPosition : vec3;
  m_size : R;
  m_isBox : bool;
  m_color : Z;
  m_rotationSpeed : Q * Q * Q;
  m_index : nat
}.

(** The draws after the position of an ornament: [isBox], the colour, the
    three rotation speeds, then [calculateScatterPosition(CONFIG)]. *)
Definition ornamentRest (cfg : Config) (treePos : R * R * R) (size : R)
    (index : nat) (rs : list Q) : option (meshInit * list Q) :=
  match rs with
  | bx :: c :: r1 :: r2 :: r3 :: rest =>
      let isBox := Qltb 0.5%Q bx in
      let color := Qfloor (c * 4)%Q in
      let rot := ((r1 - 0.5) * 0.02, (r2 - 0.5) * 0.02, (r3 - 0.5) * 0.02)%Q in
      match calculateScatterPosition cfg rest with
      | None => None
      | Some (sp, rest') =>
          Some (mkMesh treePos sp size isBox color rot index, rest')
      end
  | _ => None
  end.

(** Iteration [i] of the first loop (lines 94-151): [None] inside the
    result when the ornament is skipped ([continue]). The skip draw is made
    only when [y_normalized > 0.75] ([&&] short-circuits). *)
Definition regularOrnament (cfg : Config) (i : nat) (rs : list Q)
    : option (option meshInit * list Q) :=
  let H := Q2R (treeHeight cfg) in
  let body (treePos : R * R * R) (rs : list Q) :=
    let y := tree_y treePos in
    match rs with
    | s :: rest =>
        let sizeMultiplier := if Rlt_dec y (-5) then 0.8 else 1.0 in
        let baseSize := 0.3 + Q2R s * 0.4 in
        let size := baseSize * sizeMultiplier in
        match ornamentRest cfg treePos size i rest with
        | None => None
        | Some (m, rest') => Some (Some m, rest')
        end
    | [] => None
    end in
  match rs with
  | a :: b :: rest =>
      let treePos := calculateTreePosition i (ornamentCount cfg) cfg (Q2R a) (Q2R b) in
      let y := tree_y treePos in
      let y_normalized := (y + H / 2) / H in
      if Rlt_dec 0.75 y_normalized then
        match rest with
        | c :: rest' => if Qltb c 0.3%Q then Some (None, rest') else body treePos rest'
        | [] => None
        end
      else body treePos rest
  | _ => None
  end.

(** Iteration [i] of the second loop (lines 154-207). *)
Definition extraOrnament (cfg : Config) (i : nat) (rs : list Q)
    : option (meshInit * list Q) :=
  let H := Q2R (treeHeight cfg) in
  let R_base := Q2R (treeBaseRadius cfg) in
  match rs with
  | ry :: rt :: rj :: s :: rest =>
      let y := - H / 2 + Q2R ry * (H / 3) in
      let y_local := y + H / 2 in
      let r_at_y := R_base * (1 - y_local / H) in
      let theta := Q2R rt * PI * 2 in
      let r_random := r_at_y * (0.7 + Q2R rj * 0.5) in
      let x := r_random * cos theta in
      let z := r_random * sin theta in
      let size := (0.25 + Q2R s * 0.3) * 0.8 in
      ornamentRest cfg (x, y, z) size (ornamentCount cfg + i) rest
  | _ => None
  end.

Fixpoint regular_loop (cfg : Config) (i n : nat) (rs : list Q)
    : option (list meshInit * list Q) :=
  match n with
  | O => Some ([], rs)
  | S n' =>
      match regularOrnament cfg i rs with
      | None => None
      | Some (om, rs1) =>
          match regular_loop cfg (S i) n' rs1 with
          | None => None
          | Some (ms, rs2) =>
              Some (match om with Some m => m :: ms | None => ms end, rs2)
          end
      end
  end.

Fixpoint extra_loop (cfg : Config) (i n : nat) (rs : list Q)
    : option (list meshInit * list Q) :=
  match n with
  | O => Some ([], rs)
  | S n' =>
      match extraOrnament cfg i rs with
      | None => None
      | Some (m, rs1) =>
          match extra_loop cfg (S i) n' rs1 with
          | None => None
          | Some (ms, rs2) => Some (m :: ms, rs2)
          end
      end
  end.

(** The ornaments in creation order and the draws left; [None] when the
    model's draws run out. *)
Definition createOrnaments (cfg : Config) (rs : list Q)
    : option (list meshInit * list Q) :=
  match regular_loop cfg 0 (ornamentCount cfg) rs with
  | None => None
  | Some (ms, rs1) =>
      match extra_loop cfg 0 100 rs1 with
      | None => None
      | Some (es, rs2) => Some (ms ++ es, rs2)
      end
  end.

End OrnamentsInit.

(** ** Sample inputs *)

Module Samples.
Import Scatter Gesture Choreo.
Open Scope Q_scope.

(** A freshly loaded page: scattered, idle, one ornament, no gesture yet. *)
Definition ornament0 : ornament :=
  mkOrn (mkVec3 3 4 5) (mkVec3 1 2 3) (mkVec3 3 4 5).

Definition app_idle : app :=
  mkApp false false false None [ornament0] [] [] None 0.

(** The same page in the middle of a gather started at time 0. *)
Definition app_busy : app :=
  mkApp true true true (Some 3200) [ornament0] [] [] None 0.

(** 21 landmarks all at the origin: no finger extended. *)
Definition fist_hand : list landmark := repeat (mkLm 0 0) 21.

(** Thumb tip 0.5 to the right of the wrist, every fingertip above its PIP
    joint. *)
Definition open_hand : list landmark :=
  map (fun k => if Nat.eqb k 4 then mkLm 0.5 0
                else if existsb (Nat.eqb k) [8; 12; 16; 20]%nat then mkLm 0 0
                else mkLm 0 1) (seq 0 21).

(** A configuration with no regular ornament and two snow particles. *)
Definition small_cfg : Config := {|
  ornamentCount := 0;
  snowCount := 2;
  treeHeight := 20;
  treeBaseRadius := 8;
  scatterRadius := 50;
  animationDuration := 18 # 10;
  gestureDebounceTime := 1000;
  snowInteractionRadius := 5;
  snowWaveRadius := 15;
  snowSpiralRadius := 8
|}.

End Samples.

(** * Proofs *)

Open Scope Q_scope.

Lemma Qltb_iff : forall a b, Qltb a b = true <-> a < b.
Proof.
  intros a b. unfold Qltb. rewrite negb_true_iff. split.
  - intros H. apply Qnot_le_lt. intros Hle. apply Qle_bool_iff in Hle. congruence.
  - intros H. destruct (Qle_bool b a) eqn:E; [|reflexivity].
    apply Qle_bool_iff in E. exfalso. apply (Qlt_not_le a b); assumption.
Qed.

Lemma Qltb_false_iff : forall a b, Qltb a b = false <-> b <= a.
Proof.
  intros a b. unfold Qltb. rewrite negb_false_iff. apply Qle_bool_iff.
Qed.

(** ** Rejection sampling stays in the sphere *)

Section RejectionSampling.
Import Scatter.

Lemma scatter_loop_in_sphere : forall n radius rs v rest,
  (length rs <= n)%nat ->
  calculateScatterPosition_loop radius rs = Some (v, rest) ->
  norm2 v <= radius * radius.
Proof.
  induction n as [|n IH]; intros radius rs v rest Hlen Hrun.
  - destruct rs; [discriminate | simpl in Hlen; lia].
  - destruct rs as [|a [|b [|c rs']]]; try discriminate.
    simpl in Hrun.
    destruct (Qltb _ _) eqn:E.
    + apply (IH radius rs' v rest); [simpl in Hlen; lia | exact Hrun].
    + injection Hrun as <- _. apply Qltb_false_iff in E.
      unfold norm2; simpl. exact E.
Qed.

Lemma randomInSphere_in_sphere : forall n radius rs v rest,
  (length rs <= n)%nat ->
  randomInSphere radius rs = Some (v, rest) ->
  norm2 v <= radius * radius.
Proof.
  induction n as [|n IH]; intros radius rs v rest Hlen Hrun.
  - destruct rs; [discriminate | simpl in Hlen; lia].
  - destruct rs as [|a [|b [|c rs']]]; try discriminate.
    simpl in Hrun.
    destruct (Qltb _ _) eqn:E.
    + apply (IH radius rs' v rest); [simpl in Hlen; lia | exact Hrun].
    + injection Hrun as <- _. apply Qltb_false_iff in E.
      unfold norm2; simpl. exact E.
Qed.

End RejectionSampling.

(** C6: every vector returned by [calculateScatterPosition(CONFIG)] or by
    [randomInSphere(radius)] has squared norm at most [radius^2], for every
    sequence of [Math.random()] draws. *)
Theorem scatterPosition_in_sphere (cfg : Config) (rs rest : list Q)
    (v : Scatter.vec3) :
  (Scatter.calculateScatterPosition cfg rs = Some (v, rest) ->
   Scatter.norm2 v <= scatterRadius cfg * scatterRadius cfg) /\
  (Scatter.randomInSphere (scatterRadius cfg) rs = Some (v, rest) ->
   Scatter.norm2 v <= scatterRadius cfg * scatterRadius cfg).
Proof.
  split; intros H.
  - apply (scatter_loop_in_sphere (length rs) _ rs v rest (le_n _) H).
  - apply (randomInSphere_in_sphere (length rs) _ rs v rest (le_n _) H).
Qed.

(** ** Gesture classification *)

(** C5: [detectGesture] counts the thumb as extended iff its tip is more
    than 0.1 from the wrist horizontally, each other finger iff its tip's [y]
    is below its PIP's [y] minus 0.02, and answers Open for [>= 4], Fist for
    [<= 1], Partial otherwise; in particular four raised fingers and a spread
    thumb give Open, and five folded fingers give Fist. *)
Theorem detectGesture_classification (lms : list Gesture.landmark) :
  Gesture.detectGesture lms = GestureSpec.classify (GestureSpec.extended_count lms) /\
  (GestureSpec.thumb_extended lms = true ->
   GestureSpec.finger_extended lms 8 6 = true ->
   GestureSpec.finger_extended lms 12 10 = true ->
   GestureSpec.finger_extended lms 16 14 = true ->
   GestureSpec.finger_extended lms 20 18 = true ->
   Gesture.detectGesture lms = Gesture.Open) /\
  (GestureSpec.thumb_extended lms = false ->
   GestureSpec.finger_extended lms 8 6 = false ->
   GestureSpec.finger_extended lms 12 10 = false ->
   GestureSpec.finger_extended lms 16 14 = false ->
   GestureSpec.finger_extended lms 20 18 = false ->
   Gesture.detectGesture lms = Gesture.Fist).
Proof.
  assert (Heq : Gesture.detectGesture lms
                = GestureSpec.classify (GestureSpec.extended_count lms)).
  { unfold Gesture.detectGesture, GestureSpec.classify, GestureSpec.extended_count,
      GestureSpec.thumb_extended, GestureSpec.finger_extended.
    cbn [fold_left seq nth Gesture.fingerTips Gesture.fingerPIPs].
    destruct (Qltb (1 # 10) _), (Qltb (Gesture.ly (nth 8 lms _)) _),
      (Qltb (Gesture.ly (nth 12 lms _)) _), (Qltb (Gesture.ly (nth 16 lms _)) _),
      (Qltb (Gesture.ly (nth 20 lms _)) _); reflexivity. }
  split; [exact Heq|].
  split; intros H1 H2 H3 H4 H5; rewrite Heq;
    unfold GestureSpec.extended_count; rewrite H1, H2, H3, H4, H5; reflexivity.
Qed.

(** ** Tree height curve *)

Section TreeHeight.
Import Placement.
Local Open Scope R_scope.

Lemma Math_pow_nonneg : forall x y, 0 <= Math_pow x y.
Proof.
  intros x y. unfold Math_pow. destruct (Rlt_dec 0 x).
  - unfold Rpower. left. apply exp_pos.
  - rlra.
Qed.

Lemma Math_pow_mono : forall x1 x2 y, 0 <= y -> 0 <= x1 -> x1 <= x2 ->
  Math_pow x1 y <= Math_pow x2 y.
Proof.
  intros x1 x2 y Hy H1 H12. unfold Math_pow.
  destruct (Rlt_dec 0 x1) as [Hp1|Hp1]; destruct (Rlt_dec 0 x2) as [Hp2|Hp2].
  - apply Rle_Rpower_l; rlra.
  - rlra.
  - unfold Rpower. left. apply exp_pos.
  - rlra.
Qed.

Lemma tree_y_eq : forall index total cfg a b,
  tree_y (calculateTreePosition index total cfg a b)
  = Math_pow (INR index / INR total) 1.7 * Q2R (treeHeight cfg)
    - Q2R (treeHeight cfg) / 2.
Proof. intros. reflexivity. Qed.

End TreeHeight.

(** C7: for [index < total], the [y] of [calculateTreePosition(index, total,
    CONFIG)] is [(index/total)^1.7 * H - H/2] whatever the two random draws,
    and a larger normalized rank [index/total] never gives a smaller [y]
    (for a non-negative tree height). *)
Theorem treePosition_y_monotone (cfg : Config) (i1 n1 i2 n2 : nat)
    (a1 b1 a2 b2 : R) :
  (0 < n1)%nat -> (0 < n2)%nat -> (i1 < n1)%nat -> (i2 < n2)%nat ->
  (0 <= Q2R (treeHeight cfg))%R ->
  (INR i1 / INR n1 <= INR i2 / INR n2)%R ->
  Placement.tree_y (Placement.calculateTreePosition i1 n1 cfg a1 b1)
    = (Placement.Math_pow (INR i1 / INR n1) 1.7 * Q2R (treeHeight cfg)
       - Q2R (treeHeight cfg) / 2)%R /\
  (Placement.tree_y (Placement.calculateTreePosition i1 n1 cfg a1 b1)
   <= Placement.tree_y (Placement.calculateTreePosition i2 n2 cfg a2 b2))%R.
Proof.
  intros Hn1 Hn2 Hi1 Hi2 HH Hle.
  split; [apply tree_y_eq|].
  rewrite !tree_y_eq.
  assert (Hnn : (0 <= INR i1 / INR n1)%R).
  { unfold Rdiv. apply Rmult_le_pos; [apply pos_INR|].
    left. apply Rinv_0_lt_compat. apply lt_0_INR. exact Hn1. }
  assert (Hm := Math_pow_mono (INR i1 / INR n1) (INR i2 / INR n2) 1.7
                  ltac:(rlra) Hnn Hle).
  apply Rplus_le_compat_r. apply Rmult_le_compat_r; assumption.
Qed.

(** Witness of C7: ranks 100/400 and 300/400 with the configured tree. *)
Lemma treePosition_y_monotone_witness :
  (Placement.tree_y (Placement.calculateTreePosition 100 400 CONFIG 0 0)
   <= Placement.tree_y (Placement.calculateTreePosition 300 400 CONFIG (1/2) (1/2)))%R.
Proof.
  apply (treePosition_y_monotone CONFIG 100 400 300 400 0 0 (1/2) (1/2));
    try lia.
  - unfold Q2R; simpl. rlra.
  - apply Rmult_le_compat_r.
    + left. apply Rinv_0_lt_compat. apply lt_0_INR. lia.
    + apply le_INR. lia.
Defined.

(** ** Transition state machine *)

Section Transitions.
Import Scatter Gesture Choreo.

Lemma transitionState_busy : forall cfg now g s,
  animating s = true -> transitionState cfg now g s = Some s.
Proof. intros cfg now g s H. unfold transitionState. rewrite H. reflexivity. Qed.

Lemma transitionState_gather : forall cfg now s,
  animating s = false ->
  transitionState cfg now true s =
  Some (mkApp (isGathered s) true true
          (Some (snd (gatherAll now (ornaments s) cfg) + animationDuration cfg * 1000))
          (ornaments s) (tweens s ++ fst (gatherAll now (ornaments s) cfg)) (rng s)
          (lastGesture s) (lastGestureTime s)).
Proof. intros cfg now s H. unfold transitionState. rewrite H. reflexivity. Qed.

(** A gesture frame either leaves the logical and the shown configuration
    alone, or starts a transition to the logical one. *)
Lemma onHandResults_sync : forall cfg t frame s0 s1 acts,
  onHandResults cfg t frame s0 = Some (s1, acts) ->
  (isGathered s1 = isGathered s0 /\ shown s1 = shown s0) \/
  isGathered s1 = shown s1.
Proof.
  intros cfg t frame s0 s1 acts. unfold onHandResults.
  destruct frame as [lms|];
    [|intros H; injection H as <- _; left; split; reflexivity].
  destruct (negb _ && _);
    [|intros H; injection H as <- _; left; split; reflexivity].
  destruct (gesture_eqb _ Fist && negb (isGathered s0) && negb (animating s0)) eqn:E1.
  { apply andb_prop in E1 as [_ E3]. apply negb_true_iff in E3.
    rewrite transitionState_gather by exact E3.
    intros H; injection H as <- _. right. reflexivity. }
  destruct (gesture_eqb _ Open && isGathered s0 && negb (animating s0)) eqn:E2.
  { apply andb_prop in E2 as [_ E3]. apply negb_true_iff in E3.
    unfold transitionState. simpl. rewrite E3.
    destruct (scatterAll _ _ _ _) as [[[[os tws] r] rs]|]; [|discriminate].
    intros H; injection H as <- _. right. reflexivity. }
  destruct (gesture_eqb _ Open);
    intros H; injection H as <- _; left; split; reflexivity.
Qed.

(** While [animating] holds, no gesture frame changes [isGathered]. *)
Lemma onHandResults_busy_keeps_state : forall cfg t frame s s1 acts,
  animating s = true ->
  onHandResults cfg t frame s = Some (s1, acts) ->
  isGathered s1 = isGathered s.
Proof.
  intros cfg t frame s s1 acts Hbusy. unfold onHandResults.
  destruct frame as [lms|]; [|intros H; injection H as <- _; reflexivity].
  destruct (negb _ && _); [|intros H; injection H as <- _; reflexivity].
  rewrite Hbusy, !andb_false_r.
  destruct (gesture_eqb _ Open); intros H; injection H as <- _; reflexivity.
Qed.

Lemma advance_keeps_configuration : forall t s,
  isGathered (advance t s) = isGathered s /\ shown (advance t s) = shown s.
Proof.
  intros t s. unfold advance.
  destruct (clear_at s); [destruct (Qle_bool _ t)|]; split; reflexivity.
Qed.

End Transitions.

(** C1: a call to [transitionState] while [animationState.animating] holds
    returns at once, leaving the whole state (guard, ornaments, their tweens,
    hence every position at every time) as it was; in particular a gather
    request followed by a scatter request before it completes leaves
    [animating] true and starts no second transition. *)
Theorem transitionState_reentrancy_guard (cfg : Config) (now now' : Q)
    (toGathered : bool) (s : Choreo.app) :
  (Choreo.animating s = true ->
   Choreo.transitionState cfg now toGathered s = Some s) /\
  (Choreo.animating s = false ->
   exists s1, Choreo.transitionState cfg now true s = Some s1 /\
     Choreo.animating s1 = true /\
     Choreo.transitionState cfg now' false s1 = Some s1).
Proof.
  split.
  - apply transitionState_busy.
  - intros H. rewrite transitionState_gather by exact H.
    eexists. split; [reflexivity|]. split; [reflexivity|].
    apply transitionState_busy. reflexivity.
Qed.

(** C9: [toggleState] flips [isGathered] before [transitionState] consults
    the guard: during a transition it inverts the logical state and starts
    nothing, whereas no gesture frame changes [isGathered] during a
    transition. If logical and shown configuration agreed, they disagree
    after such a toggle, also once the running transition's timer has fired,
    and a gesture frame never restores agreement except by starting a
    transition. *)
Theorem toggle_during_transition_desyncs (cfg : Config) (now : Q)
    (s : Choreo.app) :
  Choreo.animating s = true ->
  Choreo.toggleState cfg now s
    = Some (Choreo.set_isGathered (negb (Choreo.isGathered s)) s) /\
  (forall t frame s1 acts, Choreo.onHandResults cfg t frame s = Some (s1, acts) ->
     Choreo.isGathered s1 = Choreo.isGathered s) /\
  (Choreo.isGathered s = Choreo.shown s -> forall t,
     Choreo.isGathered
       (Choreo.advance t (Choreo.set_isGathered (negb (Choreo.isGathered s)) s))
     <> Choreo.shown
       (Choreo.advance t (Choreo.set_isGathered (negb (Choreo.isGathered s)) s))) /\
  (forall s0 t frame s1 acts, Choreo.onHandResults cfg t frame s0 = Some (s1, acts) ->
     (Choreo.isGathered s1 = Choreo.isGathered s0 /\ Choreo.shown s1 = Choreo.shown s0)
     \/ Choreo.isGathered s1 = Choreo.shown s1).
Proof.
  intros Hbusy. split; [|split; [|split]].
  - unfold Choreo.toggleState. cbv zeta. apply transitionState_busy. exact Hbusy.
  - intros t frame s1 acts H. exact (onHandResults_busy_keeps_state _ _ _ _ _ _ Hbusy H).
  - intros Hagree t.
    destruct (advance_keeps_configuration t
                (Choreo.set_isGathered (negb (Choreo.isGathered s)) s)) as [E1 E2].
    rewrite E1, E2. simpl. rewrite Hagree. destruct (Choreo.shown s); discriminate.
  - intros s0 t frame s1 acts. apply onHandResults_sync.
Qed.

(** ** Gather timing *)

Section GatherTiming.
Import Scatter Gesture Choreo.

Lemma render_index_app : forall t l1 l2 i p,
  render_index t (l1 ++ l2) i p = render_index t l2 i (render_index t l1 i p).
Proof. intros. unfold render_index. apply fold_left_app. Qed.

Lemma render_gather_other : forall now cfg t i orns k p,
  (i < k)%nat -> render_index t (gather_tweens now cfg k orns) i p = p.
Proof.
  intros now cfg t i orns. unfold render_index.
  induction orns as [|o os IH]; intros k p Hik; [reflexivity|].
  simpl. assert (E : Nat.eqb k i = false) by (apply Nat.eqb_neq; lia).
  rewrite E. simpl. apply IH. lia.
Qed.

Lemma render_gather_hit : forall now cfg t i orns k p o,
  (k <= i)%nat -> nth_error orns (i - k) = Some o ->
  0 <= animationDuration cfg ->
  now + inject_Z (Z.of_nat i) * 0.002 * 1000 + animationDuration cfg * 1000 <= t ->
  render_index t (gather_tweens now cfg k orns) i p = treePosition o.
Proof.
  intros now cfg t i orns. induction orns as [|o' os IH]; intros k p o Hki Hnth HD Ht.
  - destruct (i - k)%nat; discriminate.
  - destruct (Nat.eq_dec k i) as [<-|Hne].
    + rewrite Nat.sub_diag in Hnth. injection Hnth as <-.
      unfold render_index. simpl. rewrite Nat.eqb_refl.
      assert (Hs : Qle_bool (now + inject_Z (Z.of_nat k) * 0.002 * 1000) t = true)
        by (apply Qle_bool_iff; qlra).
      rewrite Hs. simpl. unfold tween_value. simpl.
      assert (He : Qle_bool (now + inject_Z (Z.of_nat k) * 0.002 * 1000
                             + animationDuration cfg * 1000) t = true)
        by (apply Qle_bool_iff; exact Ht).
      rewrite He. fold (render_index t (gather_tweens now cfg (S k) os) k (treePosition o')).
      apply render_gather_other. lia.
    + replace (i - k)%nat with (S (i - S k)) in Hnth by lia. simpl in Hnth.
      unfold render_index. simpl.
      assert (E : Nat.eqb k i = false) by (apply Nat.eqb_neq; exact Hne).
      rewrite E. simpl. apply IH; [lia | exact Hnth | exact HD | exact Ht].
Qed.

Lemma in_gather_tweens : forall now cfg orns k tw,
  In tw (gather_tweens now cfg k orns) ->
  exists j, (k <= j < k + length orns)%nat /\
    tw_start tw = now + inject_Z (Z.of_nat j) * 0.002 * 1000 /\
    tw_duration tw = animationDuration cfg * 1000.
Proof.
  intros now cfg orns. induction orns as [|o os IH]; intros k tw Hin; [contradiction|].
  destruct Hin as [<-|Hin].
  - exists k. simpl. repeat split; lia || reflexivity.
  - destruct (IH (S k) tw Hin) as [j [Hj Hrest]]. exists j. simpl. split; [lia|exact Hrest].
Qed.

Lemma index_bound_Q : forall j, (j < 500)%nat -> inject_Z (Z.of_nat j) <= 499 # 1.
Proof.
  intros j Hj. change (499 # 1) with (inject_Z 499). rewrite <- Zle_Qle. lia.
Qed.

End GatherTiming.

(** C3: with the configured [animationDuration] of 1.8 s and the at most
    [ornamentCount + 100] ornaments [createOrnaments] makes, a gather request
    clears [animating] 3200 ms after it starts ([setTimeout] of 900 ms, the
    0.5 s ribbon fade-in, then [setTimeout] of 1800 ms); every ornament tween
    it starts, largest stagger delay included, ends by then, the guard stays
    set until then, and from then on the guard is clear and every ornament is
    at its [treePosition]. *)
Theorem gather_completes_before_guard_clears (s : Choreo.app) (now : Q) :
  Choreo.animating s = false ->
  (length (Choreo.ornaments s) <= ornamentCount CONFIG + 100)%nat ->
  exists s1,
    Choreo.transitionState CONFIG now true s = Some s1 /\
    Choreo.tweens s1
      = Choreo.tweens s ++ fst (Choreo.gatherAll now (Choreo.ornaments s) CONFIG) /\
    (forall tw, In tw (fst (Choreo.gatherAll now (Choreo.ornaments s) CONFIG)) ->
       Choreo.tw_start tw + Choreo.tw_duration tw <= now + 3200) /\
    (forall t, t < now + 3200 -> Choreo.animating (Choreo.advance t s1) = true) /\
    (forall t, now + 3200 <= t ->
       Choreo.animating (Choreo.advance t s1) = false /\
       forall i o, nth_error (Choreo.ornaments s) i = Some o ->
         Choreo.position_at t (Choreo.advance t s1) i = Some (Choreo.treePosition o)).
Proof.
  intros Hidle Hlen. simpl in Hlen.
  rewrite transitionState_gather by exact Hidle.
  eexists. split; [reflexivity|]. split; [reflexivity|]. split; [|split].
  - intros tw Hin. simpl in Hin.
    destruct (in_gather_tweens _ _ _ _ _ Hin) as [j [Hj [Hst Hdu]]].
    rewrite Hst, Hdu. simpl.
    assert (Hb := index_bound_Q j ltac:(lia)). qlra.
  - intros t Ht. unfold Choreo.advance. simpl.
    destruct (Qle_bool _ t) eqn:E; [|reflexivity].
    apply Qle_bool_iff in E. exfalso. qlra.
  - intros t Ht. unfold Choreo.advance. simpl.
    destruct (Qle_bool _ t) eqn:E.
    2:{ exfalso. rewrite <- Bool.not_true_iff_false, Qle_bool_iff in E.
        apply E. qlra. }
    split; [reflexivity|].
    intros i o Hnth. unfold Choreo.position_at. simpl. rewrite Hnth.
    f_equal. rewrite render_index_app.
    assert (Hi : (i < 500)%nat).
    { assert (Hs : nth_error (Choreo.ornaments s) i <> None) by congruence.
      apply nth_error_Some in Hs. lia. }
    apply render_gather_hit; [lia | rewrite Nat.sub_0_r; exact Hnth | simpl; qlra |].
    simpl. assert (Hb := index_bound_Q i Hi). qlra.
Qed.

(** ** Gesture debounce *)

Section Debounce.
Import Gesture Choreo.

Lemma gesture_eqb_refl : forall g, gesture_eqb g g = true.
Proof. destruct g; reflexivity. Qed.

Lemma spiral_not_triggered : forall g,
  triggered (if gesture_eqb g Fist then [ASpiral] else []) = false.
Proof. intros g. destruct (gesture_eqb g Fist); reflexivity. Qed.

Lemma triggered_app : forall a b, triggered (a ++ b) = triggered a || triggered b.
Proof. intros. unfold triggered. apply existsb_app. Qed.

(** A frame that triggers passed the gate, and records its gesture. *)
Lemma onHandResults_trigger : forall cfg t l s s1 acts,
  onHandResults cfg t (Some l) s = Some (s1, acts) ->
  triggered acts = true ->
  last_eqb (Some (detectGesture l)) (lastGesture s) = false /\
  gestureDebounceTime cfg < t - lastGestureTime s /\
  lastGesture s1 = Some (detectGesture l).
Proof.
  intros cfg t l s s1 acts. unfold onHandResults.
  destruct (last_eqb (Some (detectGesture l)) (lastGesture s)) eqn:Eg; simpl.
  { intros H; injection H as <- <-. rewrite spiral_not_triggered. discriminate. }
  destruct (Qltb _ _) eqn:Et.
  2:{ intros H; injection H as <- <-. rewrite spiral_not_triggered. discriminate. }
  apply Qltb_iff in Et.
  destruct (gesture_eqb _ Fist && negb (isGathered s) && negb (animating s)).
  { destruct (transitionState _ _ _ _); [|discriminate].
    intros H _; injection H as <- _. auto. }
  destruct (gesture_eqb _ Open && isGathered s && negb (animating s)).
  { destruct (transitionState _ _ _ _); [|discriminate].
    intros H _; injection H as <- _. auto. }
  destruct (gesture_eqb _ Open); intros H _; injection H as <- _; auto.
Qed.

(** A frame classified as the recorded gesture changes nothing and
    triggers nothing. *)
Lemma onHandResults_same : forall cfg t l s s1 acts,
  lastGesture s = Some (detectGesture l) ->
  onHandResults cfg t (Some l) s = Some (s1, acts) ->
  s1 = s /\ triggered acts = false /\ length (filter is_gather acts) = 0%nat.
Proof.
  intros cfg t l s s1 acts Hl. unfold onHandResults. rewrite Hl. simpl.
  rewrite gesture_eqb_refl. simpl.
  intros H; injection H as <- <-. split; [reflexivity|].
  destruct (gesture_eqb _ Fist); split; reflexivity.
Qed.

Lemma onHandResults_gather_count : forall cfg t f s s1 acts,
  onHandResults cfg t f s = Some (s1, acts) ->
  (length (filter is_gather acts) <= Nat.b2n (triggered acts))%nat.
Proof.
  intros cfg t f s s1 acts. unfold onHandResults.
  destruct f as [l|]; [|intros H; injection H as <- <-; simpl; lia].
  destruct (negb _ && _);
    [|intros H; injection H as <- <-; destruct (gesture_eqb _ Fist); simpl; lia].
  destruct (gesture_eqb _ Fist && negb (isGathered s) && negb (animating s)).
  { destruct (transitionState _ _ _ _); [|discriminate].
    intros H; injection H as <- <-; destruct (gesture_eqb _ Fist); simpl; lia. }
  destruct (gesture_eqb _ Open && isGathered s && negb (animating s)).
  { destruct (transitionState _ _ _ _); [|discriminate].
    intros H; injection H as <- <-; destruct (gesture_eqb _ Fist); simpl; lia. }
  destruct (gesture_eqb _ Open);
    intros H; injection H as <- <-; destruct (gesture_eqb _ Fist); simpl; lia.
Qed.

Lemma runHand_same : forall cfg g frames s s' acts,
  lastGesture s = Some g ->
  Forall (fun fr => match snd fr with
                    | None => True
                    | Some l => detectGesture l = g
                    end) frames ->
  runHand cfg frames s = Some (s', acts) ->
  triggered acts = false.
Proof.
  intros cfg g frames. induction frames as [|[t f] fs IH]; intros s s' acts Hl Hall Hrun.
  - injection Hrun as _ <-. reflexivity.
  - inversion Hall as [|? ? Hf Hfs]; subst. simpl in Hf, Hrun.
    destruct (onHandResults cfg t f s) as [[s1 a1]|] eqn:E1; [|discriminate].
    destruct (runHand cfg fs s1) as [[s2 a2]|] eqn:E2; [|discriminate].
    injection Hrun as _ <-.
    destruct f as [l|].
    + subst g. destruct (onHandResults_same cfg t l s s1 a1 Hl E1) as [-> [Ht _]].
      rewrite triggered_app, Ht. exact (IH s s2 a2 Hl Hfs E2).
    + simpl in E1. injection E1 as <- <-. exact (IH s s2 a2 Hl Hfs E2).
Qed.

End Debounce.

(** C4: a classified gesture triggers a discrete action (a transition
    request or a wave) only if it differs from [lastGesture], the last
    gesture let through the debounce gate, and more than
    [gestureDebounceTime] ms have passed since the last triggered action;
    two consecutive frames with the same classification trigger at most one
    of them and at most one gather request; and after a frame triggers, no
    later run of frames re-detecting the same gesture (or seeing no hand)
    triggers again. *)
Theorem gesture_debounce (cfg : Config) (t1 t2 : Q)
    (l1 l2 : list Gesture.landmark) (s s1 s2 : Choreo.app)
    (a1 a2 : list Choreo.action) :
  (Choreo.onHandResults cfg t1 (Some l1) s = Some (s1, a1) ->
   Choreo.triggered a1 = true ->
   Gesture.last_eqb (Some (Gesture.detectGesture l1)) (Choreo.lastGesture s) = false /\
   gestureDebounceTime cfg <= t1 - Choreo.lastGestureTime s) /\
  (Choreo.onHandResults cfg t1 (Some l1) s = Some (s1, a1) ->
   Choreo.onHandResults cfg t2 (Some l2) s1 = Some (s2, a2) ->
   Gesture.detectGesture l1 = Gesture.detectGesture l2 ->
   (Choreo.triggered a1 && Choreo.triggered a2 = false /\
    length (filter Choreo.is_gather (a1 ++ a2)) <= 1)%nat) /\
  (forall frames s' acts,
   Choreo.onHandResults cfg t1 (Some l1) s = Some (s1, a1) ->
   Choreo.triggered a1 = true ->
   Forall (fun fr => match snd fr with
                     | None => True
                     | Some l => Gesture.detectGesture l = Gesture.detectGesture l1
                     end) frames ->
   Choreo.runHand cfg frames s1 = Some (s', acts) ->
   Choreo.triggered acts = false).
Proof.
  split; [|split].
  - intros H1 Ht. destruct (onHandResults_trigger _ _ _ _ _ _ H1 Ht) as [Hg [Hd _]].
    split; [exact Hg | apply Qlt_le_weak; exact Hd].
  - intros H1 H2 Hsame.
    assert (C1 := onHandResults_gather_count _ _ _ _ _ _ H1).
    assert (C2 := onHandResults_gather_count _ _ _ _ _ _ H2).
    rewrite filter_app, length_app.
    destruct (Choreo.triggered a1) eqn:T1.
    + destruct (onHandResults_trigger _ _ _ _ _ _ H1 T1) as [_ [_ Hl]].
      rewrite Hsame in Hl.
      destruct (onHandResults_same _ _ _ _ _ _ Hl H2) as [_ [-> ->]].
      simpl in C1. split; [reflexivity | lia].
    + split; [reflexivity|]. simpl in C1. destruct (Choreo.triggered a2); simpl in C2; lia.
  - intros frames s' acts H1 Ht Hall Hrun.
    destruct (onHandResults_trigger _ _ _ _ _ _ H1 Ht) as [_ [_ Hl]].
    exact (runHand_same cfg _ frames s1 s' acts Hl Hall Hrun).
Qed.

(** ** Snow forces *)

Section SnowForces.
Import JsNum Snow.

Lemma Qsqrt_zero : forall q, q == 0 -> Qsqrt q = 0 # 1.
Proof.
  intros q Hq. unfold Qsqrt. apply Qred_complete in Hq. rewrite Hq. reflexivity.
Qed.

Lemma distance3_zero : forall a b c, a == 0 -> b == 0 -> c == 0 ->
  distance3 (Fin a) (Fin b) (Fin c) = Fin (0 # 1).
Proof.
  intros a b c Ha Hb Hc. unfold distance3. cbn [nmul nadd nsqrt].
  assert (Hs : a * a + b * b + c * c == 0) by (rewrite Ha, Hb, Hc; reflexivity).
  destruct (Qltb _ 0) eqn:E.
  - apply Qltb_iff in E. rewrite Hs in E. discriminate.
  - rewrite (Qsqrt_zero _ Hs). reflexivity.
Qed.

Lemma ndiv_zero_zero : forall a, a == 0 -> ndiv (Fin a) (Fin (0 # 1)) = NaN.
Proof.
  intros a Ha. unfold ndiv. simpl. apply Qeq_bool_iff in Ha. rewrite Ha. reflexivity.
Qed.

Lemma nth_error_list_set_same : forall {A} (l : list A) i a,
  (i < length l)%nat -> nth_error (list_set l i a) i = Some a.
Proof.
  intros A l. induction l as [|h t IH]; intros i a Hi; [simpl in Hi; lia|].
  destruct i; [reflexivity|]. simpl. apply IH. simpl in Hi. lia.
Qed.

Lemma nth_error_list_set_other : forall {A} (l : list A) i j a,
  j <> i -> nth_error (list_set l j a) i = nth_error l i.
Proof.
  intros A l. induction l as [|h t IH]; intros i j a Hne; [reflexivity|].
  destruct j, i; simpl; try reflexivity; [lia|]. apply IH. lia.
Qed.

(** One step of [updateSnowSystem] on a particle that lands exactly on the
    hand anchor and stays above the floor. *)
Lemma snowStep_at_hand : forall cfg px py pz vx vy vz hx hy hz rs,
  hx == px + vx -> hy == py + vy -> hz == pz + vz ->
  0 < snowInteractionRadius cfg -> -10 <= py + vy ->
  snowStep cfg true (mkN (Fin hx) (Fin hy) (Fin hz))
    (mkN (Fin px) (Fin py) (Fin pz)) (mkN (Fin vx) (Fin vy) (Fin vz)) rs
  = Some (mkN (Fin (px + vx)) (Fin (py + vy)) (Fin (pz + vz)),
          mkN NaN (Fin vy) NaN, rs).
Proof.
  intros cfg px py pz vx vy vz hx hy hz rs Hx Hy Hz HR Hfloor.
  unfold snowStep, nsub. cbn [nx ny nz nadd nneg].
  rewrite distance3_zero by (unfold Qminus; rewrite Hx || rewrite Hy || rewrite Hz; ring).
  cbn [nlt]. rewrite (proj2 (Qltb_iff _ _) HR).
  rewrite !ndiv_zero_zero by (rewrite Hx || rewrite Hz; ring).
  cbn [nmul nadd]. cbn [nlt].
  rewrite (proj2 (Qltb_false_iff _ _) Hfloor). reflexivity.
Qed.

(** One draw of [createSnowWave] picking a particle that sits exactly on
    the wave origin. *)
Lemma waveDraw_at_origin : forall cfg sc ox oy oz pos vel r i px py pz vx vy vz,
  waveIndex sc r = i ->
  nth_error pos i = Some (mkN (Fin px) (Fin py) (Fin pz)) ->
  nth_error vel i = Some (mkN (Fin vx) (Fin vy) (Fin vz)) ->
  px == ox -> py == oy -> pz == oz ->
  0 < snowWaveRadius cfg ->
  waveDraw cfg sc (mkN (Fin ox) (Fin oy) (Fin oz)) pos vel r
  = list_set vel i (mkN NaN (Fin (vy + 0.3)) NaN).
Proof.
  intros cfg sc ox oy oz pos vel r i px py pz vx vy vz Hi Hp Hv Hx Hy Hz HR.
  unfold waveDraw. rewrite Hi, Hp. unfold nsub. cbn [nx ny nz nadd nneg].
  rewrite distance3_zero by (rewrite Hx || rewrite Hy || rewrite Hz; ring).
  cbn [nlt]. rewrite (proj2 (Qltb_iff _ _) HR). rewrite Hv.
  unfold waveKick. cbn [nx ny nz].
  rewrite !ndiv_zero_zero by (rewrite Hx || rewrite Hz; ring). reflexivity.
Qed.

End SnowForces.

(** C2 (as the code does it): the division normalizing the direction is
    not guarded. A particle of [updateSnowSystem] that lands exactly on the
    hand anchor (within the interaction radius, above the floor) gets [NaN]
    in [velocity.x] and [velocity.z]; a particle drawn by [createSnowWave]
    that sits exactly on the wave origin gets [NaN] there too. *)
Theorem snow_zero_distance_gives_nan :
  (forall cfg px py pz vx vy vz hx hy hz rs,
   hx == px + vx -> hy == py + vy -> hz == pz + vz ->
   0 < snowInteractionRadius cfg -> -10 <= py + vy ->
   Snow.snowStep cfg true
     (Snow.mkN (JsNum.Fin hx) (JsNum.Fin hy) (JsNum.Fin hz))
     (Snow.mkN (JsNum.Fin px) (JsNum.Fin py) (JsNum.Fin pz))
     (Snow.mkN (JsNum.Fin vx) (JsNum.Fin vy) (JsNum.Fin vz)) rs
   = Some (Snow.mkN (JsNum.Fin (px + vx)) (JsNum.Fin (py + vy)) (JsNum.Fin (pz + vz)),
           Snow.mkN JsNum.NaN (JsNum.Fin vy) JsNum.NaN, rs)) /\
  (forall cfg sc ox oy oz pos vel r i px py pz vx vy vz,
   Snow.waveIndex sc r = i ->
   nth_error pos i = Some (Snow.mkN (JsNum.Fin px) (JsNum.Fin py) (JsNum.Fin pz)) ->
   nth_error vel i = Some (Snow.mkN (JsNum.Fin vx) (JsNum.Fin vy) (JsNum.Fin vz)) ->
   px == ox -> py == oy -> pz == oz ->
   0 < snowWaveRadius cfg ->
   Snow.waveDraw cfg sc (Snow.mkN (JsNum.Fin ox) (JsNum.Fin oy) (JsNum.Fin oz)) pos vel r
   = Snow.list_set vel i (Snow.mkN JsNum.NaN (JsNum.Fin (vy + 0.3)) JsNum.NaN)).
Proof.
  split; [exact snowStep_at_hand | exact waveDraw_at_origin].
Qed.

(** Witness of C2: a particle at (1, 5.05, 20) falling at 0.05 onto the
    hand anchor (1, 5, 20), and a particle at the wave origin drawn by the
    draw 0. *)
Lemma snow_zero_distance_gives_nan_witness :
  Snow.snowStep CONFIG true
    (Snow.mkN (JsNum.Fin 1) (JsNum.Fin 5) (JsNum.Fin 20))
    (Snow.mkN (JsNum.Fin 1) (JsNum.Fin 5.05) (JsNum.Fin 20))
    (Snow.mkN (JsNum.Fin 0) (JsNum.Fin (-0.05)) (JsNum.Fin 0)) []
  = Some (Snow.mkN (JsNum.Fin (1 + 0)) (JsNum.Fin (5.05 + -0.05)) (JsNum.Fin (20 + 0)),
          Snow.mkN JsNum.NaN (JsNum.Fin (-0.05)) JsNum.NaN, []) /\
  Snow.waveDraw CONFIG 1%nat (Snow.mkN (JsNum.Fin 1) (JsNum.Fin 5) (JsNum.Fin 20))
    [Snow.mkN (JsNum.Fin 1) (JsNum.Fin 5) (JsNum.Fin 20)]
    [Snow.mkN (JsNum.Fin 0) (JsNum.Fin (-0.05)) (JsNum.Fin 0)] 0
  = Snow.list_set [Snow.mkN (JsNum.Fin 0) (JsNum.Fin (-0.05)) (JsNum.Fin 0)] 0%nat
      (Snow.mkN JsNum.NaN (JsNum.Fin (-0.05 + 0.3)) JsNum.NaN).
Proof.
  split.
  - apply (proj1 snow_zero_distance_gives_nan); vm_compute; try reflexivity; discriminate.
  - apply (proj2 snow_zero_distance_gives_nan CONFIG 1%nat 1 5 20 _ _ 0 0%nat 1 5 20 0 (-0.05) 0);
      vm_compute; try reflexivity; discriminate.
Defined.

(** C2 refuted: [updateSnowSystem] writes [NaN] into the velocity of a
    particle that reaches the hand anchor exactly, and [createSnowWave] into
    that of a particle on the wave origin. *)
Lemma snow_zero_distance_counterexample :
  match Snow.updateSnowSystem
          [Snow.mkN (JsNum.Fin 1) (JsNum.Fin 5.05) (JsNum.Fin 20)]
          [Snow.mkN (JsNum.Fin 0) (JsNum.Fin (-0.05)) (JsNum.Fin 0)] 1%nat true
          (Snow.mkN (JsNum.Fin 1) (JsNum.Fin 5) (JsNum.Fin 20)) CONFIG [] with
  | Some (_, [v], _) => JsNum.is_finite (Snow.nx v) = false /\ JsNum.is_finite (Snow.nz v) = false
  | _ => False
  end /\
  match Snow.createSnowWave
          [Snow.mkN (JsNum.Fin 1) (JsNum.Fin 5) (JsNum.Fin 20)]
          [Snow.mkN (JsNum.Fin 0) (JsNum.Fin (-0.05)) (JsNum.Fin 0)] 1%nat
          (Snow.mkN (JsNum.Fin 1) (JsNum.Fin 5) (JsNum.Fin 20)) CONFIG [0.5] with
  | Some ([v], _) => JsNum.is_finite (Snow.nx v) = false /\ JsNum.is_finite (Snow.nz v) = false
  | _ => False
  end.
Proof. vm_compute. repeat split. Qed.

(** ** Wave impulses *)

Section WaveDraws.
Import JsNum Snow.

Lemma waveDraw_other : forall cfg sc o pos vel r i,
  waveIndex sc r <> i ->
  nth_error (waveDraw cfg sc o pos vel r) i = nth_error vel i.
Proof.
  intros cfg sc o pos vel r i Hne. unfold waveDraw.
  destruct (nth_error pos (waveIndex sc r)); [|reflexivity].
  destruct (nlt _ _); [|reflexivity].
  destruct (nth_error vel (waveIndex sc r)); [|reflexivity].
  apply nth_error_list_set_other. exact Hne.
Qed.

Lemma waveDraw_hit : forall cfg sc ox oy oz pos vel r i px py pz vx vy vz d,
  waveIndex sc r = i ->
  nth_error pos i = Some (mkN (Fin px) (Fin py) (Fin pz)) ->
  nth_error vel i = Some (mkN (Fin vx) (Fin vy) (Fin vz)) ->
  distance3 (Fin (px - ox)) (Fin (py - oy)) (Fin (pz - oz)) = Fin d ->
  0 < d -> d < snowWaveRadius cfg ->
  nth_error (waveDraw cfg sc (mkN (Fin ox) (Fin oy) (Fin oz)) pos vel r) i
  = Some (mkN (Fin (vx + (px - ox) / d * 0.5)) (Fin (vy + 0.3))
              (Fin (vz + (pz - oz) / d * 0.5))).
Proof.
  intros cfg sc ox oy oz pos vel r i px py pz vx vy vz d Hi Hp Hv Hd Hpos HR.
  unfold waveDraw. rewrite Hi, Hp. unfold nsub. cbn [nx ny nz nadd nneg].
  change (px + - ox) with (px - ox). change (py + - oy) with (py - oy).
  change (pz + - oz) with (pz - oz). rewrite Hd.
  cbn [nlt]. rewrite (proj2 (Qltb_iff _ _) HR). rewrite Hv.
  rewrite nth_error_list_set_same.
  2:{ assert (Hs : nth_error vel i <> None) by congruence.
      apply nth_error_Some in Hs. exact Hs. }
  unfold waveKick, ndiv. cbn [nx ny nz].
  assert (Hd0 : Qeq_bool d 0 = false).
  { apply Bool.not_true_iff_false. intros E. apply Qeq_bool_iff in E.
    rewrite E in Hpos. discriminate. }
  rewrite Hd0. reflexivity.
Qed.

Lemma wave_loop_velocity : forall cfg sc ox oy oz pos i px py pz d n vel rs
    vel' rest vx vy vz,
  nth_error pos i = Some (mkN (Fin px) (Fin py) (Fin pz)) ->
  distance3 (Fin (px - ox)) (Fin (py - oy)) (Fin (pz - oz)) = Fin d ->
  0 < d -> d < snowWaveRadius cfg ->
  nth_error vel i = Some (mkN (Fin vx) (Fin vy) (Fin vz)) ->
  createSnowWave_loop cfg sc (mkN (Fin ox) (Fin oy) (Fin oz)) n pos vel rs
    = Some (vel', rest) ->
  exists wx wy wz,
    nth_error vel' i = Some (mkN (Fin wx) (Fin wy) (Fin wz)) /\
    wx == vx + inject_Z (Z.of_nat (draws_of sc i n rs)) * ((px - ox) / d * 0.5) /\
    wy == vy + inject_Z (Z.of_nat (draws_of sc i n rs)) * 0.3 /\
    wz == vz + inject_Z (Z.of_nat (draws_of sc i n rs)) * ((pz - oz) / d * 0.5).
Proof.
  intros cfg sc ox oy oz pos i px py pz d n.
  induction n as [|n IH]; intros vel rs vel' rest vx vy vz Hp Hd Hpos HR Hv Hrun.
  - injection Hrun as <- _. exists vx, vy, vz. split; [exact Hv|].
    simpl. repeat split; ring.
  - destruct rs as [|r rs']; [discriminate|]. simpl in Hrun.
    simpl draws_of.
    destruct (Nat.eqb (waveIndex sc r) i) eqn:Ei.
    + apply Nat.eqb_eq in Ei.
      assert (Hv1 := waveDraw_hit cfg sc ox oy oz pos vel r i px py pz vx vy vz d
                       Ei Hp Hv Hd Hpos HR).
      destruct (IH _ _ _ _ _ _ _ Hp Hd Hpos HR Hv1 Hrun)
        as [wx [wy [wz [Hw [Ex [Ey Ez]]]]]].
      exists wx, wy, wz. split; [exact Hw|].
      rewrite Nat2Z.inj_add, inject_Z_plus. simpl (inject_Z (Z.of_nat 1)).
      rewrite Ex, Ey, Ez. repeat split; ring.
    + apply Nat.eqb_neq in Ei.
      assert (Hv1 : nth_error (waveDraw cfg sc (mkN (Fin ox) (Fin oy) (Fin oz)) pos vel r) i
                    = Some (mkN (Fin vx) (Fin vy) (Fin vz)))
        by (rewrite waveDraw_other by exact Ei; exact Hv).
      exact (IH _ _ _ _ _ _ _ Hp Hd Hpos HR Hv1 Hrun).
Qed.

Lemma wave_loop_untouched : forall cfg sc o pos i n vel rs vel' rest,
  Forall (fun r => waveIndex sc r <> i) rs ->
  createSnowWave_loop cfg sc o n pos vel rs = Some (vel', rest) ->
  nth_error vel' i = nth_error vel i.
Proof.
  intros cfg sc o pos i n. induction n as [|n IH]; intros vel rs vel' rest Hall Hrun.
  - injection Hrun as <- _. reflexivity.
  - destruct rs as [|r rs']; [discriminate|]. simpl in Hrun.
    inversion Hall as [|? ? Hr Hrs]; subst.
    rewrite (IH _ _ _ _ Hrs Hrun). apply waveDraw_other. exact Hr.
Qed.

Lemma wave_loop_runs : forall cfg sc o pos n vel rs,
  length rs = n ->
  exists vel', createSnowWave_loop cfg sc o n pos vel rs = Some (vel', []).
Proof.
  intros cfg sc o pos n. induction n as [|n IH]; intros vel rs Hlen.
  - destruct rs; [|discriminate]. eexists. reflexivity.
  - destruct rs as [|r rs']; [discriminate|]. simpl. apply IH. simpl in Hlen. lia.
Qed.

Lemma draws_of_repeat : forall sc i r n,
  waveIndex sc r = i -> draws_of sc i n (repeat r n) = n.
Proof.
  intros sc i r n Hr. induction n as [|n IH]; [reflexivity|].
  simpl. rewrite Hr, Nat.eqb_refl, IH. reflexivity.
Qed.

Lemma waveIndex_draw_for : forall sc j, (0 < sc)%nat -> waveIndex sc (draw_for sc j) = j.
Proof.
  intros sc j Hsc. unfold waveIndex, draw_for.
  assert (Hnz : ~ inject_Z (Z.of_nat sc) == 0).
  { intros H. change 0 with (inject_Z 0) in H. rewrite inject_Z_injective in H. lia. }
  assert (E : inject_Z (Z.of_nat j) / inject_Z (Z.of_nat sc) * inject_Z (Z.of_nat sc)
              == inject_Z (Z.of_nat j)) by (field; exact Hnz).
  rewrite E, Qfloor_Z. apply Nat2Z.id.
Qed.

Lemma draw_for_range : forall sc j, (j < sc)%nat -> 0 <= draw_for sc j < 1.
Proof.
  intros sc j Hj. unfold draw_for.
  assert (Hsc : 0 < inject_Z (Z.of_nat sc)).
  { change 0 with (inject_Z 0). rewrite <- Zlt_Qlt. lia. }
  split.
  - apply Qle_shift_div_l; [exact Hsc|]. rewrite Qmult_0_l.
    change 0 with (inject_Z 0). rewrite <- Zle_Qle. lia.
  - apply Qlt_shift_div_r; [exact Hsc|]. rewrite Qmult_1_l.
    rewrite <- Zlt_Qlt. lia.
Qed.

End WaveDraws.

(** C8 (as the code does it): [createSnowWave] draws its
    [min(200, snowCount)] particle indices at random with replacement. A
    particle at computed distance [d] from the origin with [0 < d <
    snowWaveRadius] (e.g. [d = snowWaveRadius / 2]) whose index is drawn [k]
    times gets [k] times the upward boost 0.3 and [k] times the outward
    impulse [(dx/d * 0.5, dz/d * 0.5)]: for [k >= 1] the horizontal changes
    have the signs of the direction away from the origin, for [k = 0] the
    velocity is unchanged. *)
Theorem wave_impulse_per_draw (cfg : Config) (sc i : nat)
    (pos vel vel' : list Snow.nvec) (rs rest : list Q)
    (ox oy oz px py pz vx vy vz d : Q) :
  nth_error pos i = Some (Snow.mkN (JsNum.Fin px) (JsNum.Fin py) (JsNum.Fin pz)) ->
  nth_error vel i = Some (Snow.mkN (JsNum.Fin vx) (JsNum.Fin vy) (JsNum.Fin vz)) ->
  Snow.distance3 (JsNum.Fin (px - ox)) (JsNum.Fin (py - oy)) (JsNum.Fin (pz - oz))
    = JsNum.Fin d ->
  0 < d -> d < snowWaveRadius cfg ->
  Snow.createSnowWave pos vel sc (Snow.mkN (JsNum.Fin ox) (JsNum.Fin oy) (JsNum.Fin oz))
    cfg rs = Some (vel', rest) ->
  let k := inject_Z (Z.of_nat (Snow.draws_of sc i (Nat.min 200 sc) rs)) in
  exists wx wy wz,
    nth_error vel' i = Some (Snow.mkN (JsNum.Fin wx) (JsNum.Fin wy) (JsNum.Fin wz)) /\
    wy == vy + k * 0.3 /\
    wx == vx + k * ((px - ox) / d * 0.5) /\
    wz == vz + k * ((pz - oz) / d * 0.5) /\
    (1 <= k ->
     (0 < px - ox -> vx < wx) /\ (px - ox < 0 -> wx < vx) /\
     (0 < pz - oz -> vz < wz) /\ (pz - oz < 0 -> wz < vz)).
Proof.
  intros Hp Hv Hd Hpos HR Hrun k.
  destruct (wave_loop_velocity cfg sc ox oy oz pos i px py pz d _ vel rs vel' rest
              vx vy vz Hp Hd Hpos HR Hv Hrun) as [wx [wy [wz [Hw [Ex [Ey Ez]]]]]].
  fold k in Ex, Ey, Ez.
  exists wx, wy, wz. split; [exact Hw|]. split; [exact Ey|]. split; [exact Ex|].
  split; [exact Ez|].
  intros Hk.
  assert (Hpos' : forall a, 0 < a -> 0 < k * (a / d * 0.5)).
  { intros a Ha. apply Qmult_lt_0_compat; [qlra|].
    apply Qmult_lt_0_compat; [|reflexivity].
    apply Qlt_shift_div_l; [exact Hpos|]. rewrite Qmult_0_l. exact Ha. }
  assert (Hneg' : forall a, a < 0 -> k * (a / d * 0.5) < 0).
  { intros a Ha. assert (H := Hpos' (- a) ltac:(qlra)).
    assert (E : k * (- a / d * 0.5) == - (k * (a / d * 0.5))).
    { unfold Qdiv. ring. }
    rewrite E in H. qlra. }
  repeat split; intros Ha.
  - assert (H := Hpos' _ Ha). qlra.
  - assert (H := Hneg' _ Ha). qlra.
  - assert (H := Hpos' _ Ha). qlra.
  - assert (H := Hneg' _ Ha). qlra.
Qed.

(** Witness of C8: one particle at distance [snowWaveRadius / 2 = 7.5]
    east of the origin, drawn once. *)
Lemma wave_impulse_per_draw_witness :
  match Snow.createSnowWave
          [Snow.mkN (JsNum.Fin 7.5) (JsNum.Fin 0) (JsNum.Fin 20)]
          [Snow.mkN (JsNum.Fin 0) (JsNum.Fin (-0.05)) (JsNum.Fin 0)] 1%nat
          (Snow.mkN (JsNum.Fin 0) (JsNum.Fin 0) (JsNum.Fin 20)) CONFIG [0] with
  | Some (vel', rest) =>
      let k := inject_Z (Z.of_nat (Snow.draws_of 1 0 (Nat.min 200 1) [0%Q])%nat) in
      exists wx wy wz,
        nth_error vel' 0%nat = Some (Snow.mkN (JsNum.Fin wx) (JsNum.Fin wy) (JsNum.Fin wz)) /\
        wy == -0.05 + k * 0.3 /\
        wx == 0 + k * ((7.5 - 0) / (30 # 4) * 0.5) /\
        wz == 0 + k * ((20 - 20) / (30 # 4) * 0.5) /\
        (1 <= k ->
         (0 < 7.5 - 0 -> 0 < wx) /\ (7.5 - 0 < 0 -> wx < 0) /\
         (0 < 20 - 20 -> 0 < wz) /\ (20 - 20 < 0 -> wz < 0))
  | None => False
  end.
Proof.
  destruct (Snow.createSnowWave _ _ _ _ _ _) as [[vel' rest]|] eqn:E.
  - apply (wave_impulse_per_draw CONFIG 1%nat 0%nat
             [Snow.mkN (JsNum.Fin 7.5) (JsNum.Fin 0) (JsNum.Fin 20)]
             [Snow.mkN (JsNum.Fin 0) (JsNum.Fin (-0.05)) (JsNum.Fin 0)]
             vel' [0] rest 0 0 20 7.5 0 20 0 (-0.05) 0 (30 # 4));
      try reflexivity; [exact E].
  - vm_compute in E. discriminate.
Defined.

(** C8 refuted: with the configured 700 particles, a particle at distance
    7.5 = [snowWaveRadius / 2] east of the origin keeps its velocity when
    the 200 draws all pick particle 5, and gains [200 * 0.3 = 60] in
    vertical velocity when they all pick it. *)
Lemma wave_impulse_counterexample :
  match Snow.createSnowWave
          (Snow.mkN (JsNum.Fin 7.5) (JsNum.Fin 0) (JsNum.Fin 20)
           :: repeat (Snow.mkN (JsNum.Fin 100) (JsNum.Fin 100) (JsNum.Fin 100)) 699)
          (repeat (Snow.mkN (JsNum.Fin 0) (JsNum.Fin (-0.05)) (JsNum.Fin 0)) 700)
          700 (Snow.mkN (JsNum.Fin 0) (JsNum.Fin 0) (JsNum.Fin 20)) CONFIG
          (repeat (Snow.draw_for 700 5) 200) with
  | Some (vel', _) =>
      nth_error vel' 0%nat = Some (Snow.mkN (JsNum.Fin 0) (JsNum.Fin (-0.05)) (JsNum.Fin 0))
  | None => False
  end /\
  match Snow.createSnowWave
          (Snow.mkN (JsNum.Fin 7.5) (JsNum.Fin 0) (JsNum.Fin 20)
           :: repeat (Snow.mkN (JsNum.Fin 100) (JsNum.Fin 100) (JsNum.Fin 100)) 699)
          (repeat (Snow.mkN (JsNum.Fin 0) (JsNum.Fin (-0.05)) (JsNum.Fin 0)) 700)
          700 (Snow.mkN (JsNum.Fin 0) (JsNum.Fin 0) (JsNum.Fin 20)) CONFIG
          (repeat (Snow.draw_for 700 0) 200) with
  | Some (vel', _) =>
      match nth_error vel' 0%nat with
      | Some w =>
          match Snow.ny w with
          | JsNum.Fin q => Qeq_bool q (-0.05 + 60) = true
          | _ => False
          end
      | None => False
      end
  | None => False
  end.
Proof. vm_compute. split; reflexivity. Qed.

(** C10: [createSnowWave] draws its [min(200, snowCount)] indices with
    replacement. For any field of at least two particles and any particle
    [i] within [snowWaveRadius] of the origin (at a positive distance),
    there are legal draws (values in [0, 1)) with which [i] is picked every
    time, gaining [min(200, snowCount) * 0.3] in vertical velocity (a
    multiple of the boost), and legal draws with which [i] gets no impulse
    at all. *)
Theorem wave_draws_with_replacement (cfg : Config) (sc i : nat)
    (pos vel : list Snow.nvec) (ox oy oz px py pz vx vy vz d : Q) :
  (2 <= sc)%nat -> (i < sc)%nat ->
  nth_error pos i = Some (Snow.mkN (JsNum.Fin px) (JsNum.Fin py) (JsNum.Fin pz)) ->
  nth_error vel i = Some (Snow.mkN (JsNum.Fin vx) (JsNum.Fin vy) (JsNum.Fin vz)) ->
  Snow.distance3 (JsNum.Fin (px - ox)) (JsNum.Fin (py - oy)) (JsNum.Fin (pz - oz))
    = JsNum.Fin d ->
  0 < d -> d < snowWaveRadius cfg ->
  (exists rs vel',
     length rs = Nat.min 200 sc /\ Forall (fun r => 0 <= r < 1) rs /\
     Snow.createSnowWave pos vel sc (Snow.mkN (JsNum.Fin ox) (JsNum.Fin oy) (JsNum.Fin oz))
       cfg rs = Some (vel', []) /\
     (2 <= Nat.min 200 sc)%nat /\
     exists wx wy wz,
       nth_error vel' i = Some (Snow.mkN (JsNum.Fin wx) (JsNum.Fin wy) (JsNum.Fin wz)) /\
       wy == vy + inject_Z (Z.of_nat (Nat.min 200 sc)) * 0.3) /\
  (exists rs vel',
     length rs = Nat.min 200 sc /\ Forall (fun r => 0 <= r < 1) rs /\
     Snow.createSnowWave pos vel sc (Snow.mkN (JsNum.Fin ox) (JsNum.Fin oy) (JsNum.Fin oz))
       cfg rs = Some (vel', []) /\
     nth_error vel' i = nth_error vel i).
Proof.
  intros Hsc Hi Hp Hv Hd Hpos HR.
  set (n := Nat.min 200 sc).
  split.
  - set (rs := repeat (Snow.draw_for sc i) n).
    assert (Hlen : length rs = n) by apply repeat_length.
    destruct (wave_loop_runs cfg sc (Snow.mkN (JsNum.Fin ox) (JsNum.Fin oy) (JsNum.Fin oz))
                pos n vel rs Hlen) as [vel' Hrun].
    exists rs, vel'. split; [exact Hlen|]. split.
    { apply Forall_forall. intros r Hr. apply repeat_spec in Hr. subst r.
      apply draw_for_range. exact Hi. }
    split; [exact Hrun|]. split; [unfold n; lia|].
    destruct (wave_loop_velocity cfg sc ox oy oz pos i px py pz d n vel rs vel' []
                vx vy vz Hp Hd Hpos HR Hv Hrun) as [wx [wy [wz [Hw [_ [Ey _]]]]]].
    exists wx, wy, wz. split; [exact Hw|].
    rewrite Ey. unfold rs. rewrite draws_of_repeat; [reflexivity|].
    apply waveIndex_draw_for. lia.
  - set (j := if Nat.eqb i 0 then 1%nat else 0%nat).
    assert (Hj : (j < sc)%nat /\ j <> i)
      by (unfold j; destruct (Nat.eqb_spec i 0); lia).
    set (rs := repeat (Snow.draw_for sc j) n).
    assert (Hlen : length rs = n) by apply repeat_length.
    destruct (wave_loop_runs cfg sc (Snow.mkN (JsNum.Fin ox) (JsNum.Fin oy) (JsNum.Fin oz))
                pos n vel rs Hlen) as [vel' Hrun].
    exists rs, vel'. split; [exact Hlen|]. split.
    { apply Forall_forall. intros r Hr. apply repeat_spec in Hr. subst r.
      apply draw_for_range. apply Hj. }
    split; [exact Hrun|].
    apply (wave_loop_untouched cfg sc (Snow.mkN (JsNum.Fin ox) (JsNum.Fin oy) (JsNum.Fin oz))
             pos i n vel rs vel' []); [|exact Hrun].
    apply Forall_forall. intros r Hr. apply repeat_spec in Hr. subst r.
    rewrite waveIndex_draw_for by lia. apply Hj.
Qed.

(** Witnesses. *)

Lemma transitionState_reentrancy_guard_witness :
  Choreo.transitionState CONFIG 100 false Samples.app_busy = Some Samples.app_busy /\
  exists s1, Choreo.transitionState CONFIG 0 true Samples.app_idle = Some s1 /\
    Choreo.animating s1 = true /\
    Choreo.transitionState CONFIG 100 false s1 = Some s1.
Proof.
  split.
  - apply (proj1 (transitionState_reentrancy_guard CONFIG 100 0 false Samples.app_busy)).
    reflexivity.
  - apply (proj2 (transitionState_reentrancy_guard CONFIG 0 100 true Samples.app_idle)).
    reflexivity.
Defined.

Lemma toggle_during_transition_desyncs_witness :
  Choreo.toggleState CONFIG 100 Samples.app_busy
    = Some (Choreo.set_isGathered false Samples.app_busy) /\
  Choreo.isGathered (Choreo.advance 5000 (Choreo.set_isGathered false Samples.app_busy))
    <> Choreo.shown (Choreo.advance 5000 (Choreo.set_isGathered false Samples.app_busy)).
Proof.
  destruct (toggle_during_transition_desyncs CONFIG 100 Samples.app_busy eq_refl)
    as [H1 [_ [H3 _]]].
  split; [exact H1|]. exact (H3 eq_refl 5000).
Defined.

Lemma gather_completes_before_guard_clears_witness :
  exists s1,
    Choreo.transitionState CONFIG 0 true Samples.app_idle = Some s1 /\
    Choreo.animating (Choreo.advance 3199 s1) = true /\
    Choreo.animating (Choreo.advance 3200 s1) = false /\
    Choreo.position_at 3200 (Choreo.advance 3200 s1) 0%nat
      = Some (Choreo.treePosition Samples.ornament0).
Proof.
  destruct (gather_completes_before_guard_clears Samples.app_idle 0 eq_refl)
    as [s1 [Hs1 [_ [_ [Hbusy Hdone]]]]].
  { simpl. lia. }
  exists s1. split; [exact Hs1|]. split.
  - apply Hbusy. qlra.
  - assert (Ht : 0 + 3200 <= 3200) by qlra.
    destruct (Hdone 3200 Ht) as [Ha Hp]. split; [exact Ha|].
    apply Hp. reflexivity.
Defined.

Lemma gesture_debounce_witness :
  match Choreo.onHandResults CONFIG 2000 (Some Samples.fist_hand) Samples.app_idle with
  | Some (s1, a1) =>
      Choreo.triggered a1 = true /\
      match Choreo.onHandResults CONFIG 2100 (Some Samples.fist_hand) s1 with
      | Some (s2, a2) =>
          (Choreo.triggered a1 && Choreo.triggered a2 = false /\
           length (filter Choreo.is_gather (a1 ++ a2)) <= 1)%nat
      | None => False
      end
  | None => False
  end.
Proof.
  destruct (Choreo.onHandResults CONFIG 2000 _ _) as [[s1 a1]|] eqn:E1;
    [|vm_compute in E1; discriminate].
  pose proof E1 as E1'. vm_compute in E1'. injection E1' as Hs1 Ha1.
  split; [subst a1; reflexivity|].
  destruct (Choreo.onHandResults CONFIG 2100 _ s1) as [[s2 a2]|] eqn:E2;
    [|subst s1; vm_compute in E2; discriminate].
  apply (proj1 (proj2 (gesture_debounce CONFIG 2000 2100 Samples.fist_hand
                         Samples.fist_hand Samples.app_idle s1 s2 a1 a2)));
    [exact E1 | exact E2 | reflexivity].
Defined.

Lemma detectGesture_classification_witness :
  Gesture.detectGesture Samples.open_hand = Gesture.Open /\
  Gesture.detectGesture Samples.fist_hand = Gesture.Fist.
Proof.
  split.
  - apply (proj1 (proj2 (detectGesture_classification Samples.open_hand)));
      vm_compute; reflexivity.
  - apply (proj2 (proj2 (detectGesture_classification Samples.fist_hand)));
      vm_compute; reflexivity.
Defined.

Lemma scatterPosition_in_sphere_witness :
  match Scatter.calculateScatterPosition CONFIG [0.7; 0.2; 0.6] with
  | Some (v, rest) => Scatter.norm2 v <= scatterRadius CONFIG * scatterRadius CONFIG
  | None => False
  end /\
  match Scatter.randomInSphere (scatterRadius CONFIG) [0.99; 0.99; 0.99; 0.7; 0.2; 0.6] with
  | Some (v, rest) => Scatter.norm2 v <= scatterRadius CONFIG * scatterRadius CONFIG
  | None => False
  end.
Proof.
  split.
  - destruct (Scatter.calculateScatterPosition _ _) as [[v rest]|] eqn:E;
      [|vm_compute in E; discriminate].
    exact (proj1 (scatterPosition_in_sphere CONFIG _ rest v) E).
  - destruct (Scatter.randomInSphere _ _) as [[v rest]|] eqn:E;
      [|vm_compute in E; discriminate].
    exact (proj2 (scatterPosition_in_sphere CONFIG _ rest v) E).
Defined.

Lemma wave_draws_with_replacement_witness :
  exists rs vel',
    Snow.createSnowWave
      [Snow.mkN (JsNum.Fin 7.5) (JsNum.Fin 0) (JsNum.Fin 20);
       Snow.mkN (JsNum.Fin 100) (JsNum.Fin 100) (JsNum.Fin 100)]
      [Snow.mkN (JsNum.Fin 0) (JsNum.Fin (-0.05)) (JsNum.Fin 0);
       Snow.mkN (JsNum.Fin 0) (JsNum.Fin (-0.05)) (JsNum.Fin 0)] 2%nat
      (Snow.mkN (JsNum.Fin 0) (JsNum.Fin 0) (JsNum.Fin 20)) CONFIG rs = Some (vel', []) /\
    nth_error vel' 0%nat = Some (Snow.mkN (JsNum.Fin 0) (JsNum.Fin (-0.05)) (JsNum.Fin 0)).
Proof.
  destruct (wave_draws_with_replacement CONFIG 2%nat 0%nat
              [Snow.mkN (JsNum.Fin 7.5) (JsNum.Fin 0) (JsNum.Fin 20);
               Snow.mkN (JsNum.Fin 100) (JsNum.Fin 100) (JsNum.Fin 100)]
              [Snow.mkN (JsNum.Fin 0) (JsNum.Fin (-0.05)) (JsNum.Fin 0);
               Snow.mkN (JsNum.Fin 0) (JsNum.Fin (-0.05)) (JsNum.Fin 0)]
              0 0 20 7.5 0 20 0 (-0.05) 0 (30 # 4))
    as [_ [rs [vel' [_ [_ [Hrun Hi]]]]]];
    try reflexivity; try lia.
  exists rs, vel'. split; [exact Hrun | exact Hi].
Defined.

(** * Further properties of the code *)

(** ** Helpers on [Qltb] and on array writes *)

Lemma Qltb_ext : forall a b c d, (a < b <-> c < d) -> Qltb a b = Qltb c d.
Proof.
  intros a b c d H. destruct (Qltb c d) eqn:E.
  - apply Qltb_iff. apply H. apply Qltb_iff. exact E.
  - apply Qltb_false_iff in E. apply Qltb_false_iff.
    apply Qnot_lt_le. intros Hab. apply H in Hab. apply (Qlt_not_le c d); assumption.
Qed.

Lemma nth_error_list_set : forall {A} (l : list A) j a i,
  nth_error (Snow.list_set l j a) i
  = if Nat.eqb i j then option_map (fun _ => a) (nth_error l i) else nth_error l i.
Proof.
  intros A l. induction l as [|h t IH]; intros j a i.
  - simpl. destruct (Nat.eqb i j); destruct i; reflexivity.
  - destruct j, i; simpl; try reflexivity.
    rewrite IH. reflexivity.
Qed.

Lemma length_list_set : forall {A} (l : list A) j a,
  length (Snow.list_set l j a) = length l.
Proof.
  intros A l. induction l as [|h t IH]; intros j a; [reflexivity|].
  destruct j; simpl; [reflexivity|]. rewrite IH. reflexivity.
Qed.

(** ** The two rejection samplers *)

(** [calculateScatterPosition(CONFIG)] (ornaments.js) and
    [randomInSphere(CONFIG.scatterRadius)] (geometry-helpers.js) are the same
    sampler: on the same [Math.random()] draws they return the same point
    and consume the same draws. *)
Theorem calculateScatterPosition_is_randomInSphere (cfg : Config) (rs : list Q) :
  Scatter.calculateScatterPosition cfg rs = Scatter.randomInSphere (scatterRadius cfg) rs.
Proof.
  (* The two loops are written alike: their fixpoints are convertible. *)
  reflexivity.
Qed.

(** ** What [detectGesture] reads *)

Section GestureInputs.
Import Gesture.


End GestureInputs.


(** [detectGesture] reads only the [x] of the wrist (0) and the thumb tip
    (4) and the [y] of the four other finger tips (8, 12, 16, 20) and their
    PIP joints (6, 10, 14, 18): two frames that agree there are classified
    alike, whatever their MCP joints, thumb joints or other landmarks. *)
Theorem detectGesture_reads_ten_coordinates (l1 l2 : list Gesture.landmark) :
  (forall k, In k [0; 4]%nat ->
     Gesture.lx (nth k l1 Gesture.lm0) == Gesture.lx (nth k l2 Gesture.lm0)) ->
  (forall k, In k [6; 8; 10; 12; 14; 16; 18; 20]%nat ->
     Gesture.ly (nth k l1 Gesture.lm0) == Gesture.ly (nth k l2 Gesture.lm0)) ->
  Gesture.detectGesture l1 = Gesture.detectGesture l2.
Proof.
  intros Hx Hy. unfold Gesture.detectGesture.
  cbn [fold_left seq nth Gesture.fingerTips Gesture.fingerPIPs].
  assert (H0 := Hx 0%nat ltac:(simpl; tauto)). assert (H4 := Hx 4%nat ltac:(simpl; tauto)).
  assert (H6 := Hy 6%nat ltac:(simpl; tauto)). assert (H8 := Hy 8%nat ltac:(simpl; tauto)).
  assert (H10 := Hy 10%nat ltac:(simpl; tauto)). assert (H12 := Hy 12%nat ltac:(simpl; tauto)).
  assert (H14 := Hy 14%nat ltac:(simpl; tauto)). assert (H16 := Hy 16%nat ltac:(simpl; tauto)).
  assert (H18 := Hy 18%nat ltac:(simpl; tauto)). assert (H20 := Hy 20%nat ltac:(simpl; tauto)).
  rewrite (Qltb_ext (1 # 10) (Qabs (Gesture.lx (nth 4 l1 Gesture.lm0) - Gesture.lx (nth 0 l1 Gesture.lm0)))
                    (1 # 10) (Qabs (Gesture.lx (nth 4 l2 Gesture.lm0) - Gesture.lx (nth 0 l2 Gesture.lm0))))
    by (rewrite H4, H0; reflexivity).
  rewrite (Qltb_ext (Gesture.ly (nth 8 l1 Gesture.lm0)) (Gesture.ly (nth 6 l1 Gesture.lm0) - 0.02)
                    (Gesture.ly (nth 8 l2 Gesture.lm0)) (Gesture.ly (nth 6 l2 Gesture.lm0) - 0.02))
    by (rewrite H8, H6; reflexivity).
  rewrite (Qltb_ext (Gesture.ly (nth 12 l1 Gesture.lm0)) (Gesture.ly (nth 10 l1 Gesture.lm0) - 0.02)
                    (Gesture.ly (nth 12 l2 Gesture.lm0)) (Gesture.ly (nth 10 l2 Gesture.lm0) - 0.02))
    by (rewrite H12, H10; reflexivity).
  rewrite (Qltb_ext (Gesture.ly (nth 16 l1 Gesture.lm0)) (Gesture.ly (nth 14 l1 Gesture.lm0) - 0.02)
                    (Gesture.ly (nth 16 l2 Gesture.lm0)) (Gesture.ly (nth 14 l2 Gesture.lm0) - 0.02))
    by (rewrite H16, H14; reflexivity).
  rewrite (Qltb_ext (Gesture.ly (nth 20 l1 Gesture.lm0)) (Gesture.ly (nth 18 l1 Gesture.lm0) - 0.02)
                    (Gesture.ly (nth 20 l2 Gesture.lm0)) (Gesture.ly (nth 18 l2 Gesture.lm0) - 0.02))
    by (rewrite H20, H18; reflexivity).
  reflexivity.
Qed.

(** ** The ribbon's light wave *)

Section RibbonWave.
Import RibbonLight.

Lemma intensity_range : forall d, 0 <= d -> 0 <= intensity_of d <= 1.
Proof.
  intros d Hd. unfold intensity_of.
  destruct (Qltb d (5 / 2)) eqn:E; [|split; qlra].
  apply Qltb_iff in E.
  assert (Hi : 1 - d / (5 / 2) == 1 - d * (2 # 5)) by field.
  assert (H0 : 0 <= 1 - d / (5 / 2)) by (rewrite Hi; change (5 / 2) with (5 # 2) in E; qlra).
  assert (H1 : 1 - d / (5 / 2) <= 1) by (rewrite Hi; qlra).
  set (i := 1 - d / (5 / 2)) in *. clearbody i. split; qnra.
Qed.

Lemma fold_two_writes :
  forall (f : list Q * list Q -> nat -> list Q * list Q) (G K : nat -> Q),
  (forall acc i, f acc i = (Snow.list_set (fst acc) i (G i), Snow.list_set (snd acc) i (K i))) ->
  forall l acc j,
  nth_error (fst (fold_left f l acc)) j
    = (if existsb (Nat.eqb j) l then option_map (fun _ => G j) (nth_error (fst acc) j)
       else nth_error (fst acc) j) /\
  nth_error (snd (fold_left f l acc)) j
    = (if existsb (Nat.eqb j) l then option_map (fun _ => K j) (nth_error (snd acc) j)
       else nth_error (snd acc) j) /\
  length (fst (fold_left f l acc)) = length (fst acc) /\
  length (snd (fold_left f l acc)) = length (snd acc).
Proof.
  intros f G K Hf l. induction l as [|x l IH]; intros acc j; [simpl; tauto|].
  cbn [fold_left existsb]. destruct (IH (f acc x) j) as [E1 [E2 [L1 L2]]].
  rewrite E1, E2, L1, L2, Hf. cbn [fst snd].
  rewrite !nth_error_list_set, !length_list_set.
  destruct (Nat.eqb j x) eqn:Ej; cbn [orb].
  - apply Nat.eqb_eq in Ej. subst x.
    destruct (existsb _ l); repeat split;
      destruct (nth_error (fst acc) j), (nth_error (snd acc) j); reflexivity.
  - repeat split.
Qed.

Lemma existsb_seq0 : forall j n, existsb (Nat.eqb j) (seq 0 n) = Nat.ltb j n.
Proof.
  intros j n. apply Bool.eq_iff_eq_true. rewrite existsb_exists, Nat.ltb_lt. split.
  - intros [x [Hx Hj]]. apply in_seq in Hx. apply Nat.eqb_eq in Hj. lia.
  - intros Hj. exists j. split; [apply in_seq; lia | apply Nat.eqb_refl].
Qed.

Lemma jsmod_nonneg : forall a b, 0 <= a -> 0 < b ->
  jsmod a b == a - b * inject_Z (Qfloor (a / b)) /\ 0 <= jsmod a b < b.
Proof.
  intros a b Ha Hb.
  assert (Hab : 0 <= a / b).
  { apply Qle_shift_div_l; [exact Hb|]. rewrite Qmult_0_l. exact Ha. }
  unfold jsmod, Qtrunc.
  rewrite (proj2 (Qle_bool_iff 0 (a / b)) Hab).
  split; [reflexivity|].
  assert (Hf1 := Qfloor_le (a / b)). assert (Hf2 := Qlt_floor (a / b)).
  rewrite inject_Z_plus in Hf2. change (inject_Z 1) with 1 in Hf2.
  set (f := inject_Z (Qfloor (a / b))) in *.
  assert (Hd : b * (a / b) == a) by (field; intros E; rewrite E in Hb; discriminate).
  assert (E1 : b * f <= b * (a / b)) by (rewrite !(Qmult_comm b); apply Qmult_le_compat_r; qlra).
  assert (E2 : b * (a / b) < b * (f + 1)).
  { rewrite !(Qmult_comm b). apply Qmult_lt_compat_r; qlra. }
  rewrite Hd in E1, E2. split; qlra.
Qed.

End RibbonWave.

(** [updateSpiralRibbon] does nothing to a hidden ribbon. On a visible one it
    changes only the [size] and [alpha] attributes, and only at the indices
    below [spiralDotCount]: there each dot gets [size = 0.5 + 2.5 k] and
    [alpha = 0.5 + 0.5 k] for one intensity [0 <= k <= 1], so sizes stay in
    [[0.5, 3]], alphas in [[0.5, 1]], and a dot's size and alpha rise and fall
    together. *)
Theorem updateSpiralRibbon_ranges (rb : RibbonLight.ribbon) (time : Q) (N : nat)
    (cfg : Config) :
  let rb' := RibbonLight.updateSpiralRibbon rb time N cfg in
  (RibbonLight.visible rb = false -> rb' = rb) /\
  RibbonLight.visible rb' = RibbonLight.visible rb /\
  RibbonLight.positions rb' = RibbonLight.positions rb /\
  length (RibbonLight.sizes rb') = length (RibbonLight.sizes rb) /\
  length (RibbonLight.alphas rb') = length (RibbonLight.alphas rb) /\
  (forall i, (N <= i)%nat ->
     nth_error (RibbonLight.sizes rb') i = nth_error (RibbonLight.sizes rb) i /\
     nth_error (RibbonLight.alphas rb') i = nth_error (RibbonLight.alphas rb) i) /\
  (RibbonLight.visible rb = true -> forall i s a, (i < N)%nat ->
     nth_error (RibbonLight.sizes rb') i = Some s ->
     nth_error (RibbonLight.alphas rb') i = Some a ->
     exists k, 0 <= k <= 1 /\ s == 0.5 + k * 2.5 /\ a == 0.5 + k * 0.5).
Proof.
  intros rb'. unfold rb', RibbonLight.updateSpiralRibbon.
  destruct (RibbonLight.visible rb) eqn:Hv; cbn [negb].
  2:{ repeat split; intros;
        first [reflexivity | assumption | discriminate | (split; reflexivity)]. }
  pose (inten := fun i : nat =>
          match nth_error (RibbonLight.positions rb) (i * 3 + 1) with
          | Some y => RibbonLight.intensity_of
                        (Qabs (y - RibbonLight.wavePosition time (treeHeight cfg)))
          | None => 0
          end).
  destruct (fold_left _ (seq 0 N) _) as [sz al] eqn:Efold.
  match type of Efold with fold_left ?f _ _ = _ =>
    assert (HF := fold_two_writes f (fun i => 0.5 + inten i * 2.5)
                    (fun i => 0.5 + inten i * 0.5) ltac:(intros; reflexivity)) end.
  cbn [RibbonLight.visible RibbonLight.positions RibbonLight.sizes RibbonLight.alphas].
  assert (Hk : forall i, 0 <= inten i <= 1).
  { intros i. unfold inten. destruct (nth_error _ _); [|split; qlra].
    apply intensity_range. apply Qabs_nonneg. }
  split; [discriminate|]. split; [reflexivity|]. split; [reflexivity|].
  destruct (HF (seq 0 N) (RibbonLight.sizes rb, RibbonLight.alphas rb) 0%nat)
    as [_ [_ [L1 L2]]].
  rewrite Efold in L1, L2. split; [exact L1|]. split; [exact L2|]. split.
  - intros i Hi. destruct (HF (seq 0 N) (RibbonLight.sizes rb, RibbonLight.alphas rb) i)
      as [E1 [E2 _]]. rewrite Efold in E1, E2. rewrite existsb_seq0 in E1, E2.
    replace (Nat.ltb i N) with false in E1, E2 by (symmetry; apply Nat.ltb_ge; exact Hi).
    split; assumption.
  - intros _ i s a Hi Hs Ha.
    destruct (HF (seq 0 N) (RibbonLight.sizes rb, RibbonLight.alphas rb) i)
      as [E1 [E2 _]]. rewrite Efold in E1, E2. rewrite existsb_seq0 in E1, E2.
    replace (Nat.ltb i N) with true in E1, E2 by (symmetry; apply Nat.ltb_lt; exact Hi).
    cbn [fst snd] in E1, E2. rewrite Hs in E1. rewrite Ha in E2.
    exists (inten i). split; [apply Hk|].
    destruct (nth_error (RibbonLight.sizes rb) i); [|discriminate].
    destruct (nth_error (RibbonLight.alphas rb) i); [|discriminate].
    injection E1 as ->. injection E2 as ->. split; reflexivity.
Qed.

(** The light band of the ribbon climbs: for [time >= 0] (and a positive
    period [H + 5]) its centre [wavePosition] lies in [[-H/2 - 5, H/2)], and
    within one period it rises by [0.8] per second, so the light runs from
    the bottom of the tree to the top (the source's comment says top to
    bottom) and then jumps back down. *)
Theorem wavePosition_climbs (H t1 t2 : Q) :
  0 < H + 5 -> 0 <= t1 -> t1 <= t2 ->
  (- H / 2 - 5 <= RibbonLight.wavePosition t1 H < H / 2) /\
  (Qfloor (t1 * 0.8 / (H + 5)) = Qfloor (t2 * 0.8 / (H + 5)) ->
   RibbonLight.wavePosition t2 H - RibbonLight.wavePosition t1 H == 0.8 * (t2 - t1)).
Proof.
  intros HH H1 H12.
  assert (A1 : 0 <= t1 * 0.8) by qlra. assert (A2 : 0 <= t2 * 0.8) by qlra.
  destruct (jsmod_nonneg (t1 * 0.8) (H + 5) A1 HH) as [M1 [B1 B2]].
  destruct (jsmod_nonneg (t2 * 0.8) (H + 5) A2 HH) as [M2 _].
  unfold RibbonLight.wavePosition. cbv zeta. split.
  - assert (E : - H / 2 == - H * (1 # 2)) by field.
    assert (E' : H / 2 == H * (1 # 2)) by field.
    rewrite E, E'. set (m := RibbonLight.jsmod _ _) in *. split; qlra.
  - intros Hf. rewrite M1, M2, Hf. ring.
Qed.

(** ** Snow creation and the per-frame step *)

Section SnowFrames.
Import JsNum Snow SnowInit.









Lemma snowParticle_ranges : forall rs p sz v rest,
  Forall (fun r => 0 <= r < 1) rs ->
  snowParticle rs = Some (p, sz, v, rest) ->
  Forall (fun r => 0 <= r < 1) rest /\
  (exists x y z, p = mkN (Fin x) (Fin y) (Fin z) /\
     -50 <= x < 50 /\ -10 <= y < 70 /\ -50 <= z < 50) /\
  0.2 <= sz < 0.8 /\
  (exists w, v = mkN (Fin 0) (Fin w) (Fin 0) /\ -0.08 < w <= -0.02).
Proof.
  intros rs p sz v rest Hrs E.
  destruct rs as [|r1 [|r2 [|r3 [|r4 [|r5 rest']]]]]; try discriminate.
  injection E as <- <- <- <-.
  inversion Hrs as [|? ? H1 Hr1]; subst. inversion Hr1 as [|? ? H2 Hr2]; subst.
  inversion Hr2 as [|? ? H3 Hr3]; subst. inversion Hr3 as [|? ? H4 Hr4]; subst.
  inversion Hr4 as [|? ? H5 Hr5]; subst.
  split; [exact Hr5|]. split; [do 3 eexists; split; [reflexivity|]; repeat split; qlra|].
  split; [split; qlra|]. eexists; split; [reflexivity|]. split; qlra.
Qed.

Lemma createSnowSystem_loop_ranges : forall n rs ps szs vs rest,
  Forall (fun r => 0 <= r < 1) rs ->
  createSnowSystem_loop n rs = Some (ps, szs, vs, rest) ->
  length ps = n /\ length szs = n /\ length vs = n /\
  Forall (fun p => exists x y z, p = mkN (Fin x) (Fin y) (Fin z) /\
            -50 <= x < 50 /\ -10 <= y < 70 /\ -50 <= z < 50) ps /\
  Forall (fun sz => 0.2 <= sz < 0.8) szs /\
  Forall (fun v => exists w, v = mkN (Fin 0) (Fin w) (Fin 0) /\ -0.08 < w <= -0.02) vs.
Proof.
  induction n as [|n IH]; intros rs ps szs vs rest Hrs E.
  - injection E as <- <- <- <-. repeat split; constructor.
  - simpl in E. destruct (snowParticle rs) as [[[[p sz] v] rs1]|] eqn:Ep; [|discriminate].
    destruct (createSnowSystem_loop n rs1) as [[[[ps' szs'] vs'] rs2]|] eqn:El; [|discriminate].
    injection E as <- <- <- <-.
    destruct (snowParticle_ranges rs p sz v rs1 Hrs Ep) as [Hrs1 [Hp [Hsz Hv]]].
    destruct (IH rs1 ps' szs' vs' rs2 Hrs1 El) as [L1 [L2 [L3 [F1 [F2 F3]]]]].
    simpl. repeat split; try (f_equal; assumption); constructor; assumption.
Qed.



End SnowFrames.

(** [createSnowSystem] (for [Math.random()] draws in [[0, 1)]) makes
    [CONFIG.snowCount] particles: each at a finite position in
    [[-50, 50) x [-10, 70) x [-50, 50)], with a size in [[0.2, 0.8)], at rest
    horizontally and falling at a speed in [[0.02, 0.08)]. *)
Theorem createSnowSystem_ranges (cfg : Config) (rs rest : list Q)
    (ps vs : list Snow.nvec) (szs : list Q) :
  Forall (fun r => 0 <= r < 1) rs ->
  SnowInit.createSnowSystem cfg rs = Some (ps, szs, vs, rest) ->
  length ps = snowCount cfg /\ length szs = snowCount cfg /\ length vs = snowCount cfg /\
  Forall (fun p => exists x y z,
            p = Snow.mkN (JsNum.Fin x) (JsNum.Fin y) (JsNum.Fin z) /\
            -50 <= x < 50 /\ -10 <= y < 70 /\ -50 <= z < 50) ps /\
  Forall (fun sz => 0.2 <= sz < 0.8) szs /\
  Forall (fun v => exists w, v = Snow.mkN (JsNum.Fin 0) (JsNum.Fin w) (JsNum.Fin 0) /\
            -0.08 < w <= -0.02) vs.
Proof.
  intros Hrs E. apply (createSnowSystem_loop_ranges (snowCount cfg) rs ps szs vs rest Hrs E).
Qed.

(** A step of [updateSnowSystem] on a particle at a finite position with a
    finite velocity: if it falls below [y = -10] it is respawned (whatever
    the hand did to its velocity) at a position in
    [[-50, 50) x [50, 80) x [-50, 50)], with no horizontal velocity and a
    falling speed in [[0.02, 0.08)], using four draws; otherwise it moves by
    its velocity and no draw is used. *)
Theorem snowStep_respawn (cfg : Config) (hd : bool) (hp : Snow.nvec)
    (px py pz vx vy vz : Q) (rs rs' : list Q) (p' v' : Snow.nvec) :
  Forall (fun r => 0 <= r < 1) rs ->
  Snow.snowStep cfg hd hp
    (Snow.mkN (JsNum.Fin px) (JsNum.Fin py) (JsNum.Fin pz))
    (Snow.mkN (JsNum.Fin vx) (JsNum.Fin vy) (JsNum.Fin vz)) rs = Some (p', v', rs') ->
  (py + vy < -10 ->
   rs' = skipn 4 rs /\
   exists x y z w,
     p' = Snow.mkN (JsNum.Fin x) (JsNum.Fin y) (JsNum.Fin z) /\
     v' = Snow.mkN (JsNum.Fin 0) (JsNum.Fin w) (JsNum.Fin 0) /\
     -50 <= x < 50 /\ 50 <= y < 80 /\ -50 <= z < 50 /\ -0.08 < w <= -0.02) /\
  (-10 <= py + vy ->
   rs' = rs /\
   p' = Snow.mkN (JsNum.Fin (px + vx)) (JsNum.Fin (py + vy)) (JsNum.Fin (pz + vz))).
Proof.
  intros Hrs E. unfold Snow.snowStep in E. cbn [Snow.nx Snow.ny Snow.nz JsNum.nadd JsNum.nlt] in E.
  split; intros Hy.
  - rewrite (proj2 (Qltb_iff _ _) Hy) in E.
    destruct rs as [|r1 [|r2 [|r3 [|r4 rest]]]]; try discriminate.
    injection E as <- <- <-. split; [reflexivity|].
    inversion Hrs as [|? ? H1 Hr1]; subst. inversion Hr1 as [|? ? H2 Hr2]; subst.
    inversion Hr2 as [|? ? H3 Hr3]; subst. inversion Hr3 as [|? ? H4 Hr4]; subst.
    do 4 eexists. split; [reflexivity|]. split; [reflexivity|]. repeat split; qlra.
  - rewrite (proj2 (Qltb_false_iff _ _) Hy) in E. injection E as <- _ <-. split; reflexivity.
Qed.


Lemma push_sign : forall a d f, 0 < d -> 0 < f ->
  (0 < a -> 0 < a / d * f * 0.2) /\ (a < 0 -> a / d * f * 0.2 < 0).
Proof.
  intros a d f Hd Hf.
  assert (Hk : 0 < / d * f * 0.2).
  { apply Qmult_lt_0_compat; [apply Qmult_lt_0_compat; [apply Qinv_lt_0_compat; exact Hd | exact Hf] | reflexivity]. }
  assert (E : a / d * f * 0.2 == a * (/ d * f * 0.2)) by (unfold Qdiv; ring).
  rewrite E. set (k := / d * f * 0.2) in *. split; intros Ha; qnra.
Qed.


(** The hand blows snow away: a particle that lands at a distance [0 < d <
    snowInteractionRadius] from the hand (and stays above the floor) gets a
    horizontal push [(dx / d, dz / d) * force * 0.2] with [force = (R - d) / R],
    then the 0.98 decay; the push on [x] (on [z]) has the sign of [dx] (of
    [dz]), pointing away from the hand, and the vertical velocity is kept. *)
Theorem snowStep_pushes_away (cfg : Config) (hx hy hz px py pz vx vy vz d : Q)
    (rs rs' : list Q) (p' v' : Snow.nvec) :
  Snow.distance3 (JsNum.Fin (px + vx - hx)) (JsNum.Fin (py + vy - hy))
    (JsNum.Fin (pz + vz - hz)) = JsNum.Fin d ->
  0 < d -> d < snowInteractionRadius cfg -> -10 <= py + vy ->
  Snow.snowStep cfg true
    (Snow.mkN (JsNum.Fin hx) (JsNum.Fin hy) (JsNum.Fin hz))
    (Snow.mkN (JsNum.Fin px) (JsNum.Fin py) (JsNum.Fin pz))
    (Snow.mkN (JsNum.Fin vx) (JsNum.Fin vy) (JsNum.Fin vz)) rs = Some (p', v', rs') ->
  let R := snowInteractionRadius cfg in
  exists wx wz,
    v' = Snow.mkN (JsNum.Fin wx) (JsNum.Fin vy) (JsNum.Fin wz) /\
    wx == 0.98 * (vx + (px + vx - hx) / d * ((R - d) / R) * 0.2) /\
    wz == 0.98 * (vz + (pz + vz - hz) / d * ((R - d) / R) * 0.2) /\
    (0 < px + vx - hx -> 0.98 * vx < wx) /\ (px + vx - hx < 0 -> wx < 0.98 * vx) /\
    (0 < pz + vz - hz -> 0.98 * vz < wz) /\ (pz + vz - hz < 0 -> wz < 0.98 * vz).
Proof.
  intros Hd Hpos HR Hy E R.
  unfold Snow.snowStep, JsNum.nsub in E.
  cbn [Snow.nx Snow.ny Snow.nz JsNum.nadd JsNum.nneg] in E.
  change (px + vx + - hx) with (px + vx - hx) in E.
  change (py + vy + - hy) with (py + vy - hy) in E.
  change (pz + vz + - hz) with (pz + vz - hz) in E.
  rewrite Hd in E. cbn [JsNum.nlt] in E. rewrite (proj2 (Qltb_iff _ _) HR) in E.
  unfold JsNum.ndiv in E.
  assert (Hd0 : Qeq_bool d 0 = false).
  { apply Bool.not_true_iff_false. intros X. apply Qeq_bool_iff in X. qlra. }
  assert (HR0 : Qeq_bool (snowInteractionRadius cfg) 0 = false).
  { apply Bool.not_true_iff_false. intros X. apply Qeq_bool_iff in X. qlra. }
  cbn [JsNum.nadd JsNum.nneg] in E. rewrite Hd0, HR0 in E.
  cbn [JsNum.nmul JsNum.nadd] in E.
  rewrite (proj2 (Qltb_false_iff _ _) Hy) in E. injection E as _ <- _.
  assert (Hf : 0 < (R - d) / R).
  { apply Qlt_shift_div_l; [unfold R; qlra|]. rewrite Qmult_0_l. unfold R; qlra. }
  destruct (push_sign (px + vx - hx) d ((R - d) / R) Hpos Hf) as [Sx1 Sx2].
  destruct (push_sign (pz + vz - hz) d ((R - d) / R) Hpos Hf) as [Sz1 Sz2].
  do 2 eexists. split; [reflexivity|].
  change (snowInteractionRadius cfg) with R.
  change (R + - d) with (R - d).
  split; [ring|]. split; [ring|].
  repeat split; intros Hs; [specialize (Sx1 Hs) | specialize (Sx2 Hs)
    | specialize (Sz1 Hs) | specialize (Sz2 Hs)]; qlra.
Qed.

(** ** Scatter, toggle and hand-tracking restarts *)

Section ScatterRuns.
Import Scatter Gesture Choreo.

Lemma scatter_tweens_spec : forall now cfg orns i rs os tws rs',
  scatter_tweens now cfg i orns rs = Some (os, tws, rs') ->
  length os = length orns /\ length tws = length orns /\
  forall k o, nth_error orns k = Some o ->
    exists o' tw, nth_error os k = Some o' /\ nth_error tws k = Some tw /\
      position o' = position o /\ treePosition o' = treePosition o /\
      norm2 (scatterPosition o') <= scatterRadius cfg * scatterRadius cfg /\
      tw_index tw = (i + k)%nat /\ tw_to tw = scatterPosition o' /\
      tw_start tw = now + inject_Z (Z.of_nat (i + k)) * 0.002 * 1000 /\
      tw_duration tw = animationDuration cfg * 1000.
Proof.
  intros now cfg orns. induction orns as [|o0 os0 IH]; intros i rs os tws rs' E.
  - injection E as <- <- _. split; [reflexivity|]. split; [reflexivity|].
    intros k o H. destruct k; discriminate.
  - simpl in E.
    destruct (calculateScatterPosition cfg rs) as [[sp rs1]|] eqn:Es; [|discriminate].
    destruct (scatter_tweens now cfg (S i) os0 rs1) as [[[os' tws'] rs2]|] eqn:Er;
      [|discriminate].
    injection E as <- <- _.
    destruct (IH (S i) rs1 os' tws' rs2 Er) as [L1 [L2 Hk]].
    split; [simpl; congruence|]. split; [simpl; congruence|].
    intros k o Ho. destruct k as [|k].
    + injection Ho as <-. do 2 eexists. split; [reflexivity|]. split; [reflexivity|].
      cbn. split; [reflexivity|]. split; [reflexivity|]. split.
      * exact (scatter_loop_in_sphere (length rs) (scatterRadius cfg) rs sp rs1
                 (le_n _) Es).
      * rewrite Nat.add_0_r. repeat split.
    + simpl in Ho. destruct (Hk k o Ho) as [o' [tw [H1 [H2 [H3 [H4 [H5 [H6 [H7 [H8 H9]]]]]]]]]].
      exists o', tw. simpl. repeat split; try assumption.
      * rewrite H6. lia.
      * rewrite H8. replace (i + S k)%nat with (S i + k)%nat by lia. reflexivity.
Qed.

Lemma scatterAll_runs (now : Q) (cfg : Config) (orns : list Choreo.ornament)
    (rs : list Q) (os : list Choreo.ornament) (tws : list Choreo.tween)
    (resolved : Q) (rs' : list Q) :
  Choreo.scatterAll now orns cfg rs = Some (os, tws, resolved, rs') ->
  resolved = now + 0.3 * 1000 /\
  length os = length orns /\ length tws = length orns /\
  forall k o, nth_error orns k = Some o ->
    exists o' tw, nth_error os k = Some o' /\ nth_error tws k = Some tw /\
      Choreo.position o' = Choreo.position o /\
      Choreo.treePosition o' = Choreo.treePosition o /\
      Scatter.norm2 (Choreo.scatterPosition o') <= scatterRadius cfg * scatterRadius cfg /\
      Choreo.tw_index tw = k /\ Choreo.tw_to tw = Choreo.scatterPosition o' /\
      Choreo.tw_start tw = now + inject_Z (Z.of_nat k) * 0.002 * 1000 /\
      Choreo.tw_duration tw = animationDuration cfg * 1000.
Proof.
  unfold Choreo.scatterAll.
  destruct (Choreo.scatter_tweens now cfg 0 orns rs) as [[[os0 tws0] rs0]|] eqn:E;
    [|discriminate].
  intros H; injection H as <- <- <- _.
  split; [reflexivity|]. exact (scatter_tweens_spec now cfg orns 0 rs os0 tws0 rs0 E).
Qed.

End ScatterRuns.

(** [scatterAll] keeps every ornament's start position and tree target,
    draws each a fresh scatter position inside the sphere of radius
    [CONFIG.scatterRadius], and creates for ornament [k] one tween to that
    position, delayed by [2k] ms and lasting [animationDuration] seconds; it
    resolves 300 ms after the call. *)
Theorem scatterAll_spec (now : Q) (cfg : Config) (orns : list Choreo.ornament)
    (rs : list Q) (os : list Choreo.ornament) (tws : list Choreo.tween)
    (resolved : Q) (rs' : list Q) :
  Choreo.scatterAll now orns cfg rs = Some (os, tws, resolved, rs') ->
  resolved = now + 0.3 * 1000 /\
  length os = length orns /\ length tws = length orns /\
  forall k o, nth_error orns k = Some o ->
    exists o' tw, nth_error os k = Some o' /\ nth_error tws k = Some tw /\
      Choreo.position o' = Choreo.position o /\
      Choreo.treePosition o' = Choreo.treePosition o /\
      Scatter.norm2 (Choreo.scatterPosition o') <= scatterRadius cfg * scatterRadius cfg /\
      Choreo.tw_index tw = k /\ Choreo.tw_to tw = Choreo.scatterPosition o' /\
      Choreo.tw_start tw = now + inject_Z (Z.of_nat k) * 0.002 * 1000 /\
      Choreo.tw_duration tw = animationDuration cfg * 1000.
Proof. apply scatterAll_runs. Qed.

(** With [CONFIG], a scatter started at [now] on an idle state clears its
    guard at [now + 2100] ms, while the tween of every ornament of index
    above 150 is still running then: its delay of [2k] ms pushes its end
    past [now + 2100]. *)
Theorem scatter_guard_clears_before_stagger_ends (s s1 : Choreo.app) (now : Q) :
  Choreo.animating s = false ->
  Choreo.transitionState CONFIG now false s = Some s1 ->
  (exists c, Choreo.clear_at s1 = Some c /\ c == now + 2100) /\
  Choreo.animating (Choreo.advance (now + 2100) s1) = false /\
  forall k o, (150 < k)%nat -> nth_error (Choreo.ornaments s) k = Some o ->
    exists tw, nth_error (Choreo.tweens s1) (length (Choreo.tweens s) + k) = Some tw /\
      Choreo.tw_index tw = k /\
      ((k <= 1050)%nat -> Choreo.tw_start tw <= now + 2100) /\
      now + 2100 < Choreo.tw_start tw + Choreo.tw_duration tw.
Proof.
  intros Hidle. unfold Choreo.transitionState. rewrite Hidle.
  destruct (Choreo.scatterAll now (Choreo.ornaments s) CONFIG (Choreo.rng s))
    as [[[[os tws] resolved] rs']|] eqn:E; [|discriminate].
  intros H; injection H as <-.
  destruct (scatterAll_runs _ _ _ _ _ _ _ _ E) as [Hr [_ [_ Hk]]].
  subst resolved. simpl.
  split; [eexists; split; [reflexivity|]; simpl; qlra|].
  split.
  { unfold Choreo.advance. simpl.
    replace (Qle_bool _ _) with true; [reflexivity|].
    symmetry. apply Qle_bool_iff. simpl. qlra. }
  intros k o Hk150 Ho.
  destruct (Hk k o Ho) as [o' [tw [_ [Htw [_ [_ [_ [Hi [_ [Hs Hd]]]]]]]]]].
  exists tw. split.
  { rewrite nth_error_app2 by lia. replace (length (Choreo.tweens s) + k - length (Choreo.tweens s))%nat with k by lia. exact Htw. }
  split; [exact Hi|].
  rewrite Hs, Hd. simpl.
  assert (Hk' : 151 <= inject_Z (Z.of_nat k)).
  { unfold Qle; simpl. lia. }
  split; [|qlra].
  intros Hle. assert (inject_Z (Z.of_nat k) <= 1050).
  { unfold Qle; simpl. lia. }
  qlra.
Qed.

Section ToggleAndRestart.
Import Scatter Gesture Choreo.

(** [toggleState] on an idle state flips [isGathered], starts the transition
    to the new value and arms the guard; a gather request (from the scattered
    state) draws no random number, so it always starts. *)
Theorem toggleState_idle (cfg : Config) (now : Q) (s : app) :
  animating s = false ->
  (forall s1, toggleState cfg now s = Some s1 ->
     isGathered s1 = negb (isGathered s) /\ shown s1 = isGathered s1 /\
     animating s1 = true /\ clear_at s1 <> None /\
     length (ornaments s1) = length (ornaments s)) /\
  (isGathered s = false -> exists s1, toggleState cfg now s = Some s1).
Proof.
  intros Hidle. unfold toggleState, transitionState. simpl. rewrite Hidle.
  split.
  - intros s1. destruct (isGathered s); simpl.
    + destruct (scatterAll now (ornaments s) cfg (rng s))
        as [[[[os tws] r] rs']|] eqn:E; [|discriminate].
      intros H; injection H as <-.
      destruct (scatterAll_runs _ _ _ _ _ _ _ _ E) as [_ [Hl _]].
      simpl. repeat split; try discriminate. exact Hl.
    + destruct (gatherAll now (ornaments s) cfg) as [tws r].
      intros H; injection H as <-. simpl. repeat split; discriminate.
  - intros Hg. rewrite Hg. simpl.
    destruct (gatherAll now (ornaments s) cfg). eexists; reflexivity.
Qed.

(** [stopHandTracking] sets [lastGesture] back to [null] but keeps
    [lastGestureTime]: a fist held before the stop does not trigger again
    while tracking runs, but right after a restart it gathers a scattered,
    idle tree as soon as the debounce time has passed; before that, it
    triggers nothing, stop or no stop. *)
Theorem stopHandTracking_rearms (cfg : Config) (t : Q) (l : list landmark) (s : app) :
  detectGesture l = Fist -> isGathered s = false -> animating s = false ->
  (lastGesture s = Some Fist -> onHandResults cfg t (Some l) s = Some (s, [ASpiral])) /\
  (gestureDebounceTime cfg < t - lastGestureTime s ->
   exists s1, onHandResults cfg t (Some l) (HandTracking.stopHandTracking s)
                = Some (s1, [ASpiral; AGather]) /\
     isGathered s1 = true /\ animating s1 = true /\ shown s1 = true /\
     lastGesture s1 = Some Fist /\ lastGestureTime s1 = t) /\
  (t - lastGestureTime s <= gestureDebounceTime cfg ->
   onHandResults cfg t (Some l) (HandTracking.stopHandTracking s)
     = Some (HandTracking.stopHandTracking s, [ASpiral])).
Proof.
  intros Hf Hg Ha. unfold onHandResults. rewrite Hf. simpl.
  split; [intros Hl; rewrite Hl; reflexivity|].
  split.
  - intros Hd. replace (Qltb _ _) with true by (symmetry; apply Qltb_iff; exact Hd).
    rewrite Hg, Ha. simpl. unfold transitionState. simpl. rewrite Ha.
    destruct (gatherAll t (ornaments s) cfg).
    eexists; split; [reflexivity|]. repeat split.
  - intros Hd. replace (Qltb _ _) with false
      by (symmetry; apply Qltb_false_iff; exact Hd).
    reflexivity.
Qed.

End ToggleAndRestart.

(** ** Shapes on the tree cone, the star outline *)

Section ShapeProofs.
Open Scope R_scope.

Lemma circle_sq : forall r th,
  (r * cos th) * (r * cos th) + (r * sin th) * (r * sin th) = r * r.
Proof.
  intros r th. rewrite <- (Rmult_1_r (r * r)), <- (sin2_cos2 th).
  unfold Rsqr. ring.
Qed.

Lemma nth_error_map_seq : forall {A} (f : nat -> A) n i v,
  nth_error (map f (seq 0 n)) i = Some v -> (i < n)%nat /\ v = f i.
Proof.
  intros A f n i v H. rewrite nth_error_map, nth_error_seq in H.
  destruct (Nat.ltb_spec i n); [|discriminate].
  injection H as <-. split; [assumption | reflexivity].
Qed.

Lemma div_nonneg : forall a b, 0 <= a -> 0 < b -> 0 <= a / b.
Proof.
  intros a b Ha Hb. unfold Rdiv. apply Rmult_le_pos; [exact Ha|].
  left. apply Rinv_0_lt_compat. exact Hb.
Qed.

Lemma scaled_sq_between : forall c k a b, 0 <= c -> 0 <= a -> a <= k <= b ->
  (a * c) ^ 2 <= (c * k) * (c * k) <= (b * c) ^ 2.
Proof.
  intros c k a b Hc Ha Hk.
  assert (a * c <= c * k) by rnra. assert (c * k <= b * c) by rnra.
  assert (0 <= a * c) by rnra.
  split; simpl; rewrite Rmult_1_r; apply Rmult_le_compat; rlra.
Qed.

Lemma even_mod2 : forall i, Nat.even i = Nat.eqb (Nat.modulo i 2) 0.
Proof.
  intros i. destruct (Nat.even i) eqn:E.
  - apply Nat.even_spec in E as [k ->]. symmetry. apply Nat.eqb_eq.
    rewrite Nat.mul_comm. apply Nat.Div0.mod_mul.
  - assert (Nat.odd i = true) by (rewrite <- Nat.negb_even, E; reflexivity).
    apply Nat.odd_spec in H as [k ->]. symmetry. apply Nat.eqb_neq.
    rewrite Nat.add_comm, Nat.mul_comm, Nat.Div0.mod_add. discriminate.
Qed.

Lemma Math_pow_le_1 : forall x y, 0 <= y -> 0 <= x <= 1 ->
  0 <= Placement.Math_pow x y <= 1.
Proof.
  intros x y Hy Hx. split; [apply Math_pow_nonneg|].
  replace 1 with (Placement.Math_pow 1 y).
  - apply Math_pow_mono; rlra.
  - unfold Placement.Math_pow. destruct (Rlt_dec 0 1); [|rlra].
    unfold Rpower. rewrite ln_1, Rmult_0_r. apply exp_0.
Qed.


(** [randomOnCone] returns a point of the cone of apex [(0, height/2, 0)]
    and base radius [baseRadius] at [y = -height/2]: its distance to the
    axis is [baseRadius * (1/2 - y/height)]; for [t] in [[0, 1]] the point
    lies between the base and the apex. *)
Theorem randomOnCone_on_cone (height baseRadius t rnd : R) :
  height <> 0 ->
  let '(x, y, z) := Shapes.randomOnCone height baseRadius t rnd in
  x * x + z * z = (baseRadius * (/ 2 - y / height)) ^ 2 /\
  (0 < height -> 0 <= t <= 1 -> - (height / 2) <= y <= height / 2).
Proof.
  intros Hh. unfold Shapes.randomOnCone. cbv zeta. split.
  - rewrite circle_sq. field. exact Hh.
  - intros Hp Ht. split; rnra.
Qed.

Lemma tree_near_cone (index total : nat) (cfg : Config) (a j : R) :
  (0 < total)%nat -> (index <= total)%nat ->
  0 < Q2R (treeHeight cfg) -> 0 <= Q2R (treeBaseRadius cfg) -> 0 <= j <= 1 ->
  let '(x, y, z) := Placement.calculateTreePosition index total cfg a j in
  let c := Q2R (treeBaseRadius cfg) * (/ 2 - y / Q2R (treeHeight cfg)) in
  0 <= c /\ (0.7 * c) ^ 2 <= x * x + z * z <= (1.2 * c) ^ 2 /\
  - (Q2R (treeHeight cfg) / 2) <= y <= Q2R (treeHeight cfg) / 2.
Proof.
  intros Htot Hidx HH HR Hj. unfold Placement.calculateTreePosition. cbv zeta.
  set (H := Q2R (treeHeight cfg)) in *. set (Rb := Q2R (treeBaseRadius cfg)) in *.
  assert (Ht : 0 <= INR index / INR total <= 1).
  { assert (0 < INR total) by (apply lt_0_INR; exact Htot).
    assert (INR index <= INR total) by (apply le_INR; exact Hidx).
    split; [apply div_nonneg; [apply pos_INR | assumption]|].
    apply (Rmult_le_reg_r (INR total)); [assumption|].
    unfold Rdiv. rewrite Rmult_assoc, Rinv_l by rlra. rlra. }
  destruct (Math_pow_le_1 (INR index / INR total) 1.7 ltac:(rlra) Ht) as [Hw0 Hw1].
  set (tw := Placement.Math_pow (INR index / INR total) 1.7) in *.
  assert (Ec : Rb * (/ 2 - (tw * H - H / 2) / H) = Rb * (1 - tw * H / H)) by (field; rlra).
  assert (Er : Rb * (1 - tw * H / H) = Rb * (1 - tw)) by (field; rlra).
  rewrite Ec, Er.
  assert (Hc : 0 <= Rb * (1 - tw)) by (apply Rmult_le_pos; rlra).
  assert (Hy : - (H / 2) <= tw * H - H / 2 <= H / 2) by (split; rnra).
  repeat match goal with |- context [if ?c then _ else _] => destruct c end;
  rewrite circle_sq;
  (split; [exact Hc|]); (split; [|exact Hy]);
  apply scaled_sq_between; rlra.
Qed.

(** Every tree position of [calculateTreePosition] lies between the
    heights of the cone's base and apex, at a distance from the axis
    between 0.7 and 1.2 times the cone's radius at its height. *)
Theorem treePosition_near_cone (index total : nat) (cfg : Config) (a j : R) :
  (0 < total)%nat -> (index <= total)%nat ->
  0 < Q2R (treeHeight cfg) -> 0 <= Q2R (treeBaseRadius cfg) -> 0 <= j <= 1 ->
  let '(x, y, z) := Placement.calculateTreePosition index total cfg a j in
  let c := Q2R (treeBaseRadius cfg) * (/ 2 - y / Q2R (treeHeight cfg)) in
  0 <= c /\ (0.7 * c) ^ 2 <= x * x + z * z <= (1.2 * c) ^ 2 /\
  - (Q2R (treeHeight cfg) / 2) <= y <= Q2R (treeHeight cfg) / 2.
Proof. apply tree_near_cone. Qed.

(** The points of [createSpiralRibbon] lie at 0.9 times the cone's radius
    at their height, one per dot, climbing strictly from the base. *)
Theorem createSpiralRibbon_inside_cone (cfg : Config) (N : nat) :
  0 < Q2R (treeHeight cfg) ->
  let pts := Shapes.rpoints (Shapes.createSpiralRibbon cfg N) in
  length pts = N /\
  (forall i x y z, nth_error pts i = Some (x, y, z) ->
     x * x + z * z =
       (0.9 * (Q2R (treeBaseRadius cfg) * (/ 2 - y / Q2R (treeHeight cfg)))) ^ 2 /\
     - (Q2R (treeHeight cfg) / 2) <= y < Q2R (treeHeight cfg) / 2) /\
  (forall i j pi pj, (i < j)%nat -> nth_error pts i = Some pi ->
     nth_error pts j = Some pj -> Placement.tree_y pi < Placement.tree_y pj).
Proof.
  intros HH. cbv zeta. simpl. split; [rewrite length_map; apply length_seq|].
  set (H := Q2R (treeHeight cfg)) in *.
  split.
  - intros i x y z Hi. apply nth_error_map_seq in Hi as [Hlt Hp].
    unfold Shapes.spiralPoint in Hp. cbv zeta in Hp. fold H in Hp.
    injection Hp as -> -> ->.
    assert (0 < INR N) by (apply lt_0_INR; lia).
    assert (INR i + 1 <= INR N) by (rewrite <- S_INR; apply le_INR; lia).
    assert (0 <= INR i) by apply pos_INR.
    split.
    + rewrite circle_sq. field. split; rlra.
    + set (t := INR i / INR N).
      assert (0 <= t < 1).
      { unfold t. split; [apply div_nonneg; rlra|].
        apply (Rmult_lt_reg_r (INR N)); [assumption|].
        unfold Rdiv. rewrite Rmult_assoc, Rinv_l by rlra. rlra. }
      split; rnra.
  - intros i j pi pj Hij Hi Hj.
    apply nth_error_map_seq in Hi as [_ ->]. apply nth_error_map_seq in Hj as [HjN ->].
    unfold Shapes.spiralPoint, Placement.tree_y. cbv zeta. simpl. fold H.
    assert (0 < INR N) by (apply lt_0_INR; lia).
    assert (INR i < INR j) by (apply lt_INR; exact Hij).
    assert (INR i / INR N < INR j / INR N).
    { unfold Rdiv. apply Rmult_lt_compat_r; [apply Rinv_0_lt_compat|]; assumption. }
    rnra.
Qed.

(** The outline of [createStarGeometry] has [2 * points + 1] vertices,
    ends where it starts (it is closed), and its vertices alternate between
    the outer radius (even index) and the inner radius (odd index). *)
Theorem createStarGeometry_closed_star (outerRadius innerRadius : R) (points : nat) :
  (0 < points)%nat ->
  let pts := Shapes.createStarGeometry outerRadius innerRadius points in
  length pts = (points * 2 + 1)%nat /\
  nth_error pts (points * 2) = nth_error pts 0 /\
  forall i x y, nth_error pts i = Some (x, y) ->
    x * x + y * y =
      (if Nat.even i then outerRadius else innerRadius) ^ 2.
Proof.
  intros Hp. cbv zeta. unfold Shapes.createStarGeometry.
  split; [rewrite length_map; apply length_seq|].
  split.
  - rewrite !nth_error_map, !nth_error_seq.
    replace (Nat.ltb (points * 2) (points * 2 + 1)) with true
      by (symmetry; apply Nat.ltb_lt; lia).
    replace (Nat.ltb 0 (points * 2 + 1)) with true
      by (symmetry; apply Nat.ltb_lt; lia).
    simpl option_map. f_equal. unfold Shapes.starVertex. cbv zeta.
    replace ((points * 2) mod 2) with 0%nat
      by (symmetry; apply Nat.Div0.mod_mul).
    replace (INR (points * 2) / INR (points * 2)) with 1.
    2:{ field. apply not_0_INR. lia. }
    replace (INR 0 / INR (points * 2)) with 0.
    2:{ simpl. unfold Rdiv. ring. }
    replace (1 * PI * 2) with (2 * PI) by ring.
    replace (0 * PI * 2) with 0 by ring.
    rewrite cos_2PI, sin_2PI, cos_0, sin_0. reflexivity.
  - intros i x y Hi. apply nth_error_map_seq in Hi as [_ Hv].
    unfold Shapes.starVertex in Hv. rewrite even_mod2.
    set (a := INR i / INR (points * 2) * PI * 2) in Hv |- *.
    destruct (Nat.eqb (i mod 2) 0); cbv zeta in Hv; injection Hv as -> ->;
      rewrite <- (Rmult_1_r (_ ^ 2)), <- (sin2_cos2 a); unfold Rsqr; ring.
Qed.

End ShapeProofs.

(** ** Star dust *)

Section StarDustProofs.
Open Scope R_scope.

Lemma sphere_sq : forall r th ph,
  (r * sin ph * cos th) * (r * sin ph * cos th) + (r * cos ph) * (r * cos ph) +
  (r * sin ph * sin th) * (r * sin ph * sin th) = r * r.
Proof.
  intros r th ph.
  replace ((r * sin ph * cos th) * (r * sin ph * cos th) + (r * cos ph) * (r * cos ph) +
           (r * sin ph * sin th) * (r * sin ph * sin th))
    with (r * r * ((sin ph * sin ph) * (Rsqr (sin th) + Rsqr (cos th)) + cos ph * cos ph))
    by (unfold Rsqr; ring).
  rewrite sin2_cos2.
  replace (sin ph * sin ph * 1 + cos ph * cos ph) with (Rsqr (sin ph) + Rsqr (cos ph))
    by (unfold Rsqr; ring).
  rewrite sin2_cos2. ring.
Qed.

Lemma mod3 : forall m r, (r < 3)%nat -> ((3 * m + r) mod 3 = r)%nat.
Proof.
  intros m r Hr. rewrite Nat.add_comm, Nat.mul_comm, Nat.Div0.mod_add.
  apply Nat.mod_small. exact Hr.
Qed.

Lemma half_trig_bound : forall s, -1 <= s <= 1 -> Rabs (s * 0.5) <= 0.5.
Proof. intros s Hs. apply Rabs_le. rlra. Qed.

Lemma createStarDust_loop_spec : forall n rs ps cs szs rest,
  Forall (fun r => 0 <= r < 1) rs ->
  Shapes.createStarDust_loop n rs = Some (ps, cs, szs, rest) ->
  length ps = (3 * n)%nat /\ length cs = (3 * n)%nat /\ length szs = n /\
  forall k, (k < n)%nat -> exists x y z b sz,
    nth_error ps (3 * k) = Some x /\ nth_error ps (3 * k + 1) = Some y /\
    nth_error ps (3 * k + 2) = Some z /\
    30 * 30 <= x * x + y * y + z * z < 70 * 70 /\
    nth_error cs (3 * k) = Some b /\ nth_error cs (3 * k + 1) = Some b /\
    nth_error cs (3 * k + 2) = Some (b * 0.8) /\ 0.8 <= b < 1 /\
    nth_error szs k = Some sz /\ 0.5 <= sz < 2.5.
Proof.
  induction n as [|n IH]; intros rs ps cs szs rest Hrs E.
  - injection E as <- <- <- _. repeat split; try reflexivity. intros k Hk; lia.
  - simpl in E. destruct rs as [|r1 [|r2 [|r3 [|r4 [|r5 rs']]]]]; try discriminate.
    simpl in E.
    destruct (Shapes.createStarDust_loop n rs') as [[[[ps' cs'] szs'] rest']|] eqn:E';
      [|discriminate].
    injection E as <- <- <- _.
    inversion Hrs as [|? ? H1 Hr2]; subst. inversion Hr2 as [|? ? H2 Hr3]; subst.
    inversion Hr3 as [|? ? H3 Hr4]; subst. inversion Hr4 as [|? ? H4 Hr5]; subst.
    inversion Hr5 as [|? ? H5 Hrest]; subst.
    destruct (IH rs' ps' cs' szs' rest' Hrest E') as [L1 [L2 [L3 Hk]]].
    split; [simpl; lia|]. split; [simpl; lia|]. split; [simpl; lia|].
    intros k Hkn. destruct k as [|k].
    + do 5 eexists. simpl. repeat split; try reflexivity.
      * rewrite sphere_sq. rnra.
      * rewrite sphere_sq. rnra.
      * rlra.
      * rlra.
      * rlra.
      * rlra.
    + destruct (Hk k ltac:(lia)) as [x [y [z [b [sz Hs]]]]].
      exists x, y, z, b, sz.
      replace (3 * S k)%nat with (3 + 3 * k)%nat by lia.
      replace (3 + 3 * k + 1)%nat with (3 + (3 * k + 1))%nat by lia.
      replace (3 + 3 * k + 2)%nat with (3 + (3 * k + 2))%nat by lia.
      simpl. exact Hs.
Qed.

Lemma updateStarDust_loop_nth : forall f m time orig pos j,
  (length pos <= 3 * m + 3 * f)%nat ->
  nth_error (Shapes.updateStarDust_loop f (3 * m) time orig pos) j =
  if Nat.ltb j (3 * m) then nth_error pos j
  else if Nat.ltb j (length pos) then
    Some (nth j orig 0 +
          (match (j mod 3)%nat with
           | O => sin (time + INR j)
           | S O => cos (time + INR (j - 1))
           | _ => sin (time + INR (j - 2) * 0.5)
           end) * 0.5)
  else None.
Proof.
  induction f as [|f IH]; intros m time orig pos j Hlen.
  - cbn [Shapes.updateStarDust_loop]. destruct (Nat.ltb_spec j (3 * m)); [reflexivity|].
    destruct (Nat.ltb_spec j (length pos)); [lia|].
    apply nth_error_None. lia.
  - cbn [Shapes.updateStarDust_loop]. cbv zeta.
    destruct (Nat.ltb_spec (3 * m) (length pos)) as [Hin|Hout].
    2:{ destruct (Nat.ltb_spec j (3 * m)); [reflexivity|].
        destruct (Nat.ltb_spec j (length pos)); [lia|].
        apply nth_error_None. lia. }
    replace (3 * m + 3)%nat with (3 * S m)%nat by lia.
    rewrite IH by (rewrite !length_list_set; lia).
    rewrite !length_list_set.
    destruct (Nat.ltb_spec j (3 * S m)) as [Hj|Hj].
    + rewrite !nth_error_list_set.
      destruct (Nat.ltb_spec j (3 * m)) as [Hjm|Hjm].
      * replace (Nat.eqb j (3 * m + 2)) with false by (symmetry; apply Nat.eqb_neq; lia).
        replace (Nat.eqb j (3 * m + 1)) with false by (symmetry; apply Nat.eqb_neq; lia).
        replace (Nat.eqb j (3 * m)) with false by (symmetry; apply Nat.eqb_neq; lia).
        reflexivity.
      * assert (Hr : (j = 3 * m + 0 \/ j = 3 * m + 1 \/ j = 3 * m + 2)%nat) by lia.
        destruct (Nat.ltb_spec j (length pos)) as [Hjl|Hjl].
        -- destruct (nth_error pos j) eqn:Ep.
           2:{ apply nth_error_None in Ep. lia. }
           destruct Hr as [-> | [-> | ->]].
           ++ rewrite Nat.add_0_r in *.
              replace (Nat.eqb (3 * m) (3 * m + 2)) with false by (symmetry; apply Nat.eqb_neq; lia).
              replace (Nat.eqb (3 * m) (3 * m + 1)) with false by (symmetry; apply Nat.eqb_neq; lia).
              rewrite Nat.eqb_refl, Nat.mul_comm, Nat.Div0.mod_mul. reflexivity.
           ++ replace (Nat.eqb (3 * m + 1) (3 * m + 2)) with false by (symmetry; apply Nat.eqb_neq; lia).
              rewrite Nat.eqb_refl.
              replace (Nat.eqb (3 * m + 1) (3 * m)) with false by (symmetry; apply Nat.eqb_neq; lia).
              rewrite mod3 by lia.
              replace (3 * m + 1 - 1)%nat with (3 * m)%nat by lia. reflexivity.
           ++ rewrite Nat.eqb_refl.
              replace (Nat.eqb (3 * m + 2) (3 * m + 1)) with false by (symmetry; apply Nat.eqb_neq; lia).
              replace (Nat.eqb (3 * m + 2) (3 * m)) with false by (symmetry; apply Nat.eqb_neq; lia).
              rewrite mod3 by lia.
              replace (3 * m + 2 - 2)%nat with (3 * m)%nat by lia. reflexivity.
        -- assert (nth_error pos j = None) by (apply nth_error_None; lia).
           destruct (Nat.eqb j (3 * m + 2)), (Nat.eqb j (3 * m + 1)), (Nat.eqb j (3 * m));
             rewrite ?H; reflexivity.
    + destruct (Nat.ltb_spec j (3 * m)); [lia|]. reflexivity.
Qed.

Lemma updateStarDust_loop_length : forall f i time orig pos,
  length (Shapes.updateStarDust_loop f i time orig pos) = length pos.
Proof.
  induction f as [|f IH]; intros i time orig pos; [reflexivity|].
  cbn [Shapes.updateStarDust_loop]. cbv zeta.
  destruct (Nat.ltb i (length pos)); [|reflexivity].
  rewrite IH, !length_list_set. reflexivity.
Qed.

(** [createStarDust] puts every grain on the shell between radius 30
    (included) and 70 (excluded) around the origin, with a colour
    [(b, b, 0.8 b)] for a brightness [b] in [[0.8, 1)] and a size in
    [[0.5, 2.5)], when the draws are in [[0, 1)]. *)
Theorem createStarDust_shell (n : nat) (rs ps cs szs rest : list R) :
  Forall (fun r => 0 <= r < 1) rs ->
  Shapes.createStarDust n rs = Some (ps, cs, szs, rest) ->
  length ps = (3 * n)%nat /\ length cs = (3 * n)%nat /\ length szs = n /\
  forall k, (k < n)%nat -> exists x y z b sz,
    nth_error ps (3 * k) = Some x /\ nth_error ps (3 * k + 1) = Some y /\
    nth_error ps (3 * k + 2) = Some z /\
    30 * 30 <= x * x + y * y + z * z < 70 * 70 /\
    nth_error cs (3 * k) = Some b /\ nth_error cs (3 * k + 1) = Some b /\
    nth_error cs (3 * k + 2) = Some (b * 0.8) /\ 0.8 <= b < 1 /\
    nth_error szs k = Some sz /\ 0.5 <= sz < 2.5.
Proof. apply createStarDust_loop_spec. Qed.

(** [updateStarDust] sets every coordinate to its original value plus half
    a sine or cosine of the time: it never moves a grain more than 0.5 from
    its original position along each axis, and the positions it starts
    from do not matter, so the drift of earlier frames never accumulates. *)
Theorem updateStarDust_stays_near_original (time : R) (original positions : list R) :
  length original = length positions ->
  let ps := Shapes.updateStarDust time original positions in
  length ps = length positions /\
  (forall j o, nth_error original j = Some o ->
     exists v, nth_error ps j = Some v /\ Rabs (v - o) <= 0.5 /\
       v = o + (match (j mod 3)%nat with
                | O => sin (time + INR j)
                | S O => cos (time + INR (j - 1))
                | _ => sin (time + INR (j - 2) * 0.5)
                end) * 0.5) /\
  (forall positions', length positions' = length positions ->
     Shapes.updateStarDust time original positions' = ps).
Proof.
  intros Hlen. cbv zeta. unfold Shapes.updateStarDust.
  split; [apply updateStarDust_loop_length|].
  split.
  - intros j o Ho.
    assert (Hj : (j < length positions)%nat)
      by (rewrite <- Hlen; apply nth_error_Some; rewrite Ho; discriminate).
    pose proof (updateStarDust_loop_nth (length positions) 0 time original positions j)
      as E.
    rewrite Nat.mul_0_r in E. rewrite E by lia. clear E.
    replace (Nat.ltb j 0) with false by reflexivity.
    replace (Nat.ltb j (length positions)) with true by (symmetry; apply Nat.ltb_lt; exact Hj).
    rewrite (nth_error_nth original j 0 Ho).
    eexists. split; [reflexivity|]. split; [|reflexivity].
    replace (o + _ * 0.5 - o) with ((match (j mod 3)%nat with
                | O => sin (time + INR j)
                | S O => cos (time + INR (j - 1))
                | _ => sin (time + INR (j - 2) * 0.5)
                end) * 0.5) by ring.
    apply half_trig_bound.
    destruct (j mod 3)%nat as [|[|]]; first [apply SIN_bound | apply COS_bound].
  - intros positions' Hl'. apply nth_error_ext. intros j.
    pose proof (updateStarDust_loop_nth (length positions') 0 time original positions' j)
      as E1.
    pose proof (updateStarDust_loop_nth (length positions) 0 time original positions j)
      as E2.
    rewrite Nat.mul_0_r in E1, E2. rewrite E1, E2 by lia. rewrite Hl'. reflexivity.
Qed.

End StarDustProofs.

(** ** The fist's snow spiral *)

Section SnowSpiralProofs.
Open Scope R_scope.

Lemma snowSpiralStep_spec : forall cfg pos hx hy hz time i vel vel1,
  Shapes.snowSpiralStep cfg pos (hx, hy, hz) time i vel = Some vel1 ->
  length vel1 = length vel /\
  (forall k, k <> i -> nth_error vel1 k = nth_error vel k) /\
  (nth_error vel1 i = nth_error vel i \/
   exists px py pz vx vy vz,
     nth_error pos i = Some (px, py, pz) /\ nth_error vel i = Some (vx, vy, vz) /\
     let d := sqrt ((px - hx) * (px - hx) + (py - hy) * (py - hy) + (pz - hz) * (pz - hz)) in
     let Rs := Q2R (snowSpiralRadius cfg) in
     let angle := Shapes.atan2 (pz - hz) (px - hx) + 0.1 in
     let force := (Rs - d) / Rs * 0.1 in
     d < Rs /\
     nth_error vel1 i = Some (vx + cos angle * force,
                              vy + sin (time + INR i * 0.1) * 0.05,
                              vz + sin angle * force)).
Proof.
  intros cfg pos hx hy hz time i vel vel1. unfold Shapes.snowSpiralStep.
  destruct (nth_error pos i) as [[[px py] pz]|] eqn:Ep.
  2:{ intros H; injection H as <-. split; [reflexivity|]. split; [reflexivity|].
      left. reflexivity. }
  cbv zeta.
  destruct (Rlt_dec _ _) as [Hd|Hd].
  2:{ intros H; injection H as <-. split; [reflexivity|]. split; [reflexivity|].
      left. reflexivity. }
  destruct (nth_error vel i) as [[[vx vy] vz]|] eqn:Ev; [|discriminate].
  intros H; injection H as <-.
  split; [apply length_list_set|].
  split; [intros k Hk; apply nth_error_list_set_other; congruence|].
  right. exists px, py, pz, vx, vy, vz. split; [reflexivity|]. split; [reflexivity|].
  split; [exact Hd|].
  rewrite nth_error_list_set_same; [reflexivity|].
  apply nth_error_Some. rewrite Ev. discriminate.
Qed.

Lemma createSnowSpiral_loop_spec : forall cfg pos hx hy hz time m i vel vel',
  Shapes.createSnowSpiral_loop cfg pos (hx, hy, hz) time i m vel = Some vel' ->
  length vel' = length vel /\
  forall k vx vy vz, nth_error vel k = Some (vx, vy, vz) ->
    exists wx wy wz, nth_error vel' k = Some (wx, wy, wz) /\
    ((wx, wy, wz) = (vx, vy, vz) \/
     (i <= k < i + m)%nat /\
     exists px py pz, nth_error pos k = Some (px, py, pz) /\
     let d := sqrt ((px - hx) * (px - hx) + (py - hy) * (py - hy) + (pz - hz) * (pz - hz)) in
     let Rs := Q2R (snowSpiralRadius cfg) in
     let angle := Shapes.atan2 (pz - hz) (px - hx) + 0.1 in
     let force := (Rs - d) / Rs * 0.1 in
     d < Rs /\ wx = vx + cos angle * force /\
     wy = vy + sin (time + INR k * 0.1) * 0.05 /\ wz = vz + sin angle * force).
Proof.
  intros cfg pos hx hy hz time m. induction m as [|m IH]; intros i vel vel' E.
  - injection E as <-. split; [reflexivity|].
    intros k vx vy vz Hk. exists vx, vy, vz. split; [exact Hk | left; reflexivity].
  - simpl in E.
    destruct (Shapes.snowSpiralStep cfg pos (hx, hy, hz) time i vel) as [vel1|] eqn:Es;
      [|discriminate].
    destruct (snowSpiralStep_spec _ _ _ _ _ _ _ _ _ Es) as [L1 [Hoth Hi]].
    destruct (IH (S i) vel1 vel' E) as [L2 Hk].
    split; [congruence|].
    intros k vx vy vz Hv.
    destruct (Nat.eq_dec k i) as [->|Hne].
    + destruct Hi as [Hsame | [px [py [pz [ux [uy [uz [Hp [Hu Hkick]]]]]]]]].
      * rewrite <- Hsame in Hv.
        destruct (Hk i vx vy vz Hv) as [wx [wy [wz [Hw [Heq | [Hr _]]]]]]; [|lia].
        exists wx, wy, wz. split; [exact Hw | left; exact Heq].
      * rewrite Hu in Hv. injection Hv as -> -> ->.
        cbv zeta in Hkick. destruct Hkick as [Hd Hv1].
        destruct (Hk i _ _ _ Hv1) as [wx [wy [wz [Hw [Heq | [Hr _]]]]]]; [|lia].
        injection Heq as -> -> ->.
        do 3 eexists.
        split; [exact Hw|]. right. split; [lia|].
        exists px, py, pz. split; [exact Hp|]. cbv zeta.
        split; [exact Hd|]. repeat split.
    + rewrite <- (Hoth k Hne) in Hv.
      destruct (Hk k vx vy vz Hv) as [wx [wy [wz [Hw [Heq | [Hr Hrest]]]]]].
      * exists wx, wy, wz. split; [exact Hw | left; exact Heq].
      * exists wx, wy, wz. split; [exact Hw|]. right. split; [lia | exact Hrest].
Qed.

Lemma createSnowSpiral_loop_runs : forall cfg pos position time m i vel,
  (i + m <= length vel)%nat ->
  exists vel', Shapes.createSnowSpiral_loop cfg pos position time i m vel = Some vel'.
Proof.
  intros cfg pos [[hx hy] hz] time m. induction m as [|m IH]; intros i vel Hl.
  - eexists. reflexivity.
  - simpl.
    assert (Hs : exists vel1, Shapes.snowSpiralStep cfg pos (hx, hy, hz) time i vel = Some vel1).
    { unfold Shapes.snowSpiralStep.
      destruct (nth_error pos i) as [[[px py] pz]|]; [|eexists; reflexivity].
      cbv zeta. destruct (Rlt_dec _ _); [|eexists; reflexivity].
      destruct (nth_error vel i) as [[[vx vy] vz]|] eqn:Ev; [eexists; reflexivity|].
      apply nth_error_None in Ev. lia. }
    destruct Hs as [vel1 Hs]. rewrite Hs.
    destruct (snowSpiralStep_spec _ _ _ _ _ _ _ _ _ Hs) as [L _].
    apply IH. lia.
Qed.

(** [createSnowSpiral] only changes velocities: a particle at or beyond
    [CONFIG.snowSpiralRadius] from the hand, or of index at least
    [snowCount], keeps its velocity; one inside gets a horizontal push of
    length [(R - d) / R * 0.1], between 0 and 0.1, and a vertical change of
    at most 0.05. It runs to the end whenever [snowVelocities] has
    [snowCount] entries. *)
Theorem createSnowSpiral_bounded (pos vel : list (R * R * R)) (n : nat)
    (hx hy hz : R) (cfg : Config) (now : R) :
  0 < Q2R (snowSpiralRadius cfg) ->
  ((n <= length vel)%nat ->
   exists vel', Shapes.createSnowSpiral pos vel n (hx, hy, hz) cfg now = Some vel') /\
  forall vel', Shapes.createSnowSpiral pos vel n (hx, hy, hz) cfg now = Some vel' ->
  length vel' = length vel /\
  forall i vx vy vz, nth_error vel i = Some (vx, vy, vz) ->
    exists wx wy wz, nth_error vel' i = Some (wx, wy, wz) /\
    ((wx, wy, wz) = (vx, vy, vz) \/
     (i < n)%nat /\
     exists px py pz, nth_error pos i = Some (px, py, pz) /\
     let d := sqrt ((px - hx) * (px - hx) + (py - hy) * (py - hy) + (pz - hz) * (pz - hz)) in
     let force := (Q2R (snowSpiralRadius cfg) - d) / Q2R (snowSpiralRadius cfg) * 0.1 in
     d < Q2R (snowSpiralRadius cfg) /\ 0 < force <= 0.1 /\
     (wx - vx) * (wx - vx) + (wz - vz) * (wz - vz) = force * force /\
     Rabs (wy - vy) <= 0.05).
Proof.
  intros HR. unfold Shapes.createSnowSpiral. cbv zeta. split.
  - intros Hn. apply createSnowSpiral_loop_runs. lia.
  - intros vel' E.
    destruct (createSnowSpiral_loop_spec _ _ _ _ _ _ _ _ _ _ E) as [L Hk].
    split; [exact L|].
    intros i vx vy vz Hv.
    destruct (Hk i vx vy vz Hv) as [wx [wy [wz [Hw [Heq | [Hr [px [py [pz [Hp Hkick]]]]]]]]]].
    + exists wx, wy, wz. split; [exact Hw | left; exact Heq].
    + exists wx, wy, wz. split; [exact Hw|]. right. split; [lia|].
      exists px, py, pz. split; [exact Hp|]. cbv zeta in Hkick |- *.
      destruct Hkick as [Hd [-> [-> ->]]].
      set (Rs := Q2R (snowSpiralRadius cfg)) in *.
      set (d := sqrt ((px - hx) * (px - hx) + (py - hy) * (py - hy) + (pz - hz) * (pz - hz))) in *.
      set (a := Shapes.atan2 (pz - hz) (px - hx) + 0.1).
      assert (Hd0 : 0 <= d) by apply sqrt_pos.
      split; [exact Hd|].
      split.
      { split.
        - apply Rmult_lt_0_compat; [|rlra]. unfold Rdiv.
          apply Rmult_lt_0_compat; [rlra | apply Rinv_0_lt_compat; exact HR].
        - assert ((Rs - d) / Rs <= 1).
          { apply (Rmult_le_reg_r Rs); [exact HR|].
            unfold Rdiv. rewrite Rmult_assoc, Rinv_l by rlra. rlra. }
          rlra. }
      split.
      { replace (vx + cos a * ((Rs - d) / Rs * 0.1) - vx) with (cos a * ((Rs - d) / Rs * 0.1)) by ring.
        replace (vz + sin a * ((Rs - d) / Rs * 0.1) - vz) with (sin a * ((Rs - d) / Rs * 0.1)) by ring.
        rewrite <- (Rmult_1_l ((Rs - d) / Rs * 0.1 * ((Rs - d) / Rs * 0.1))).
        rewrite <- (sin2_cos2 a). unfold Rsqr. ring. }
      replace (vy + sin (now * 0.003 + INR i * 0.1) * 0.05 - vy)
        with (sin (now * 0.003 + INR i * 0.1) * 0.05) by ring.
      apply Rabs_le. pose proof (SIN_bound (now * 0.003 + INR i * 0.1)). rlra.
Qed.

End SnowSpiralProofs.

(** ** The ornaments created at load time *)

Section OrnamentProofs.
Import Placement Scatter OrnamentsInit.
Open Scope R_scope.

Lemma draw_R : forall r : Q, (0 <= r < 1)%Q -> 0 <= Q2R r < 1.
Proof.
  intros r [H0 H1]. apply Qle_Rle in H0. apply Qlt_Rlt in H1.
  replace (Q2R 0) with 0 in H0 by (unfold Q2R; simpl; field).
  replace (Q2R 1) with 1 in H1 by (unfold Q2R; simpl; field).
  split; assumption.
Qed.

Lemma scatter_loop_rest : forall (P : Q -> Prop) n radius rs v rest,
  (length rs <= n)%nat -> Forall P rs ->
  calculateScatterPosition_loop radius rs = Some (v, rest) -> Forall P rest.
Proof.
  intros P. induction n as [|n IH]; intros radius rs v rest Hlen HP Hrun.
  - destruct rs; [discriminate | simpl in Hlen; lia].
  - destruct rs as [|a [|b [|c rs']]]; try discriminate.
    inversion HP as [|? ? _ HP1]; inversion HP1 as [|? ? _ HP2];
      inversion HP2 as [|? ? _ HP3]; subst.
    simpl in Hrun. destruct (Qltb _ _).
    + apply (IH radius rs' v rest); [simpl in Hlen; lia | exact HP3 | exact Hrun].
    + injection Hrun as _ <-. exact HP3.
Qed.

Lemma color_range : forall c : Q, (0 <= c < 1)%Q -> (0 <= Qfloor (c * 4) <= 3)%Z.
Proof.
  intros c Hc.
  pose proof (Qfloor_le (c * 4)%Q) as H1. pose proof (Qlt_floor (c * 4)%Q) as H2.
  destruct Hc as [Hc0 Hc1].
  assert (A : (inject_Z (Qfloor (c * 4)%Q) < 4)%Q) by qlra.
  assert (B : (0 < inject_Z (Qfloor (c * 4)%Q + 1))%Q) by qlra.
  set (f := Qfloor (c * 4)%Q) in *. clearbody f.
  unfold Qlt in A, B. simpl in A, B. lia.
Qed.

Lemma ornamentRest_spec : forall cfg tp size idx rs m rest,
  Forall (fun r => 0 <= r < 1)%Q rs ->
  ornamentRest cfg tp size idx rs = Some (m, rest) ->
  Forall (fun r => 0 <= r < 1)%Q rest /\
  m_treePosition m = tp /\ m_size m = size /\ m_index m = idx /\
  (norm2 (m_scatterPosition m) <= scatterRadius cfg * scatterRadius cfg)%Q /\
  (0 <= m_color m <= 3)%Z /\
  (let '(a, b, d) := m_rotationSpeed m in
   -0.01 <= a < 0.01 /\ -0.01 <= b < 0.01 /\ -0.01 <= d < 0.01)%Q.
Proof.
  intros cfg tp size idx rs m rest HD E.
  destruct rs as [|bx [|c [|r1 [|r2 [|r3 rs']]]]]; try discriminate.
  inversion HD as [|? ? _ D1]; inversion D1 as [|? ? Hc D2];
    inversion D2 as [|? ? Hr1 D3]; inversion D3 as [|? ? Hr2 D4];
    inversion D4 as [|? ? Hr3 D5]; subst.
  unfold ornamentRest in E.
  destruct (calculateScatterPosition cfg rs') as [[sp rest']|] eqn:Es; [|discriminate].
  injection E as <- <-.
  split; [exact (scatter_loop_rest _ (length rs') _ rs' sp rest' (le_n _) D5 Es)|].
  simpl. repeat split; try reflexivity.
  all: first
    [ exact (scatter_loop_in_sphere (length rs') (scatterRadius cfg) rs' sp rest' (le_n _) Es)
    | exact (proj1 (color_range c Hc))
    | exact (proj2 (color_range c Hc))
    | destruct Hr1, Hr2, Hr3; qlra ].
Qed.

Lemma regularOrnament_spec : forall cfg i rs om rest,
  Forall (fun r => 0 <= r < 1)%Q rs ->
  regularOrnament cfg i rs = Some (om, rest) ->
  Forall (fun r => 0 <= r < 1)%Q rest /\
  (om = None ->
   0.75 < (tree_y (calculateTreePosition i (ornamentCount cfg) cfg 0 0) +
           Q2R (treeHeight cfg) / 2) / Q2R (treeHeight cfg)) /\
  forall m, om = Some m ->
    (exists a b, (0 <= a < 1)%Q /\ (0 <= b < 1)%Q /\
       m_treePosition m = calculateTreePosition i (ornamentCount cfg) cfg (Q2R a) (Q2R b)) /\
    m_index m = i /\
    (norm2 (m_scatterPosition m) <= scatterRadius cfg * scatterRadius cfg)%Q /\
    (0 <= m_color m <= 3)%Z /\
    (let '(a, b, d) := m_rotationSpeed m in
     -0.01 <= a < 0.01 /\ -0.01 <= b < 0.01 /\ -0.01 <= d < 0.01)%Q /\
    0.24 <= m_size m < 0.7.
Proof.
  intros cfg i rs om rest HD E.
  destruct rs as [|a [|b rs1]]; try discriminate.
  inversion HD as [|? ? Ha H1]; inversion H1 as [|? ? Hb H2]; subst.
  unfold regularOrnament in E. cbv zeta in E.
  set (tp := calculateTreePosition i (ornamentCount cfg) cfg (Q2R a) (Q2R b)) in E.
  assert (Hy : tree_y tp = tree_y (calculateTreePosition i (ornamentCount cfg) cfg 0 0))
    by (unfold tp; rewrite !tree_y_eq; reflexivity).
  assert (Body : forall rs0, Forall (fun r => 0 <= r < 1)%Q rs0 ->
    match rs0 with
    | s :: rest0 =>
        match ornamentRest cfg tp
                ((0.3 + Q2R s * 0.4) * (if Rlt_dec (tree_y tp) (-5) then 0.8 else 1.0))
                i rest0 with
        | Some (m, rest') => Some (Some m, rest')
        | None => None
        end
    | [] => None
    end = Some (om, rest) ->
    Forall (fun r => 0 <= r < 1)%Q rest /\
    (om = None -> 0.75 < (tree_y (calculateTreePosition i (ornamentCount cfg) cfg 0 0) +
           Q2R (treeHeight cfg) / 2) / Q2R (treeHeight cfg)) /\
    forall m, om = Some m ->
    (exists a b, (0 <= a < 1)%Q /\ (0 <= b < 1)%Q /\
       m_treePosition m = calculateTreePosition i (ornamentCount cfg) cfg (Q2R a) (Q2R b)) /\
    m_index m = i /\
    (norm2 (m_scatterPosition m) <= scatterRadius cfg * scatterRadius cfg)%Q /\
    (0 <= m_color m <= 3)%Z /\
    (let '(a, b, d) := m_rotationSpeed m in
     -0.01 <= a < 0.01 /\ -0.01 <= b < 0.01 /\ -0.01 <= d < 0.01)%Q /\
    0.24 <= m_size m < 0.7).
  { intros rs0 HD0 E0. destruct rs0 as [|s rest0]; [discriminate|].
    inversion HD0 as [|? ? Hs HD1]; subst.
    destruct (ornamentRest cfg tp _ i rest0) as [[m rest']|] eqn:Er; [|discriminate].
    injection E0 as <- <-.
    destruct (ornamentRest_spec _ _ _ _ _ _ _ HD1 Er)
      as [Hrest [Htp [Hsz [Hidx [Hsc [Hcol Hrot]]]]]].
    split; [exact Hrest|]. split; [discriminate|].
    intros m' Hm; injection Hm as <-.
    split; [exists a, b; split; [exact Ha|]; split; [exact Hb | exact Htp]|].
    split; [exact Hidx|]. split; [exact Hsc|]. split; [exact Hcol|].
    split; [exact Hrot|].
    rewrite Hsz. apply draw_R in Hs.
    destruct (Rlt_dec (tree_y tp) (-5)); split; rlra. }
  destruct (Rlt_dec 0.75 _) as [Hgt|Hle].
  - destruct rs1 as [|c rs2]; [discriminate|].
    inversion H2 as [|? ? Hc H3]; subst.
    destruct (Qltb c 0.3) eqn:Ec.
    + injection E as <- <-. split; [exact H3|].
      split; [intros _; rewrite <- Hy; exact Hgt | discriminate].
    + exact (Body rs2 H3 E).
  - exact (Body rs1 H2 E).
Qed.

Lemma extraOrnament_spec : forall cfg i rs m rest,
  Forall (fun r => 0 <= r < 1)%Q rs ->
  0 < Q2R (treeHeight cfg) -> 0 <= Q2R (treeBaseRadius cfg) ->
  extraOrnament cfg i rs = Some (m, rest) ->
  Forall (fun r => 0 <= r < 1)%Q rest /\
  m_index m = (ornamentCount cfg + i)%nat /\
  (norm2 (m_scatterPosition m) <= scatterRadius cfg * scatterRadius cfg)%Q /\
  (0 <= m_color m <= 3)%Z /\
  (let '(a, b, d) := m_rotationSpeed m in
   -0.01 <= a < 0.01 /\ -0.01 <= b < 0.01 /\ -0.01 <= d < 0.01)%Q /\
  0.2 <= m_size m < 0.44 /\
  let '(x, y, z) := m_treePosition m in
  let c := Q2R (treeBaseRadius cfg) * (/ 2 - y / Q2R (treeHeight cfg)) in
  0 <= c /\ (0.7 * c) ^ 2 <= x * x + z * z <= (1.2 * c) ^ 2 /\
  - (Q2R (treeHeight cfg) / 2) <= y < - (Q2R (treeHeight cfg) / 2) + Q2R (treeHeight cfg) / 3.
Proof.
  intros cfg i rs m rest HD HH HR E.
  destruct rs as [|ry [|rt [|rj [|s rs']]]]; try discriminate.
  inversion HD as [|? ? Hry D1]; inversion D1 as [|? ? _ D2];
    inversion D2 as [|? ? Hrj D3]; inversion D3 as [|? ? Hs D4]; subst.
  unfold extraOrnament in E. cbv zeta in E.
  destruct (ornamentRest_spec _ _ _ _ _ _ _ D4 E)
    as [Hrest [Htp [Hsz [Hidx [Hsc [Hcol Hrot]]]]]].
  split; [exact Hrest|]. split; [exact Hidx|]. split; [exact Hsc|].
  split; [exact Hcol|]. split; [exact Hrot|].
  apply draw_R in Hry, Hrj, Hs.
  split; [rewrite Hsz; split; rlra|].
  rewrite Htp.
  set (H := Q2R (treeHeight cfg)) in *. set (Rb := Q2R (treeBaseRadius cfg)) in *.
  set (y := - H / 2 + Q2R ry * (H / 3)).
  assert (Ec : Rb * (1 - (y + H / 2) / H) = Rb * (/ 2 - y / H)) by (field; rlra).
  rewrite Ec.
  assert (Ec' : Rb * (/ 2 - y / H) = Rb * (1 - Q2R ry / 3)) by (unfold y; field; rlra).
  assert (Hc : 0 <= Rb * (/ 2 - y / H)) by (rewrite Ec'; apply Rmult_le_pos; rlra).
  rewrite circle_sq.
  split; [exact Hc|]. split.
  - apply scaled_sq_between; rlra.
  - unfold y. replace (- H / 2) with (- (H / 2)) by field. split; rnra.
Qed.

Lemma regular_loop_spec : forall cfg m i rs ms rest,
  Forall (fun r => 0 <= r < 1)%Q rs ->
  regular_loop cfg i m rs = Some (ms, rest) ->
  Forall (fun r => 0 <= r < 1)%Q rest /\ (length ms <= m)%nat /\
  (forall k, (i <= k < i + m)%nat ->
     (tree_y (calculateTreePosition k (ornamentCount cfg) cfg 0 0) +
      Q2R (treeHeight cfg) / 2) / Q2R (treeHeight cfg) <= 0.75 ->
     exists x, In x ms /\ m_index x = k) /\
  forall x, In x ms ->
    (i <= m_index x < i + m)%nat /\
    (exists a b, (0 <= a < 1)%Q /\ (0 <= b < 1)%Q /\
       m_treePosition x =
         calculateTreePosition (m_index x) (ornamentCount cfg) cfg (Q2R a) (Q2R b)) /\
    (norm2 (m_scatterPosition x) <= scatterRadius cfg * scatterRadius cfg)%Q /\
    (0 <= m_color x <= 3)%Z /\
    (let '(a, b, d) := m_rotationSpeed x in
     -0.01 <= a < 0.01 /\ -0.01 <= b < 0.01 /\ -0.01 <= d < 0.01)%Q /\
    0.24 <= m_size x < 0.7.
Proof.
  intros cfg m. induction m as [|m IH]; intros i rs ms rest HD E.
  - injection E as <- <-. split; [exact HD|]. split; [simpl; lia|].
    split; [intros k Hk; lia | intros x []].
  - simpl in E.
    destruct (regularOrnament cfg i rs) as [[om rs1]|] eqn:E1; [|discriminate].
    destruct (regular_loop cfg (S i) m rs1) as [[ms1 rs2]|] eqn:E2; [|discriminate].
    injection E as <- <-.
    destruct (regularOrnament_spec _ _ _ _ _ HD E1) as [HD1 [Hskip Hm]].
    destruct (IH (S i) rs1 ms1 rs2 HD1 E2) as [HD2 [Hlen [Hcov Hall]]].
    split; [exact HD2|].
    split; [destruct om; simpl; lia|].
    split.
    + intros k Hk Hy. destruct (Nat.eq_dec k i) as [->|Hne].
      * destruct om as [x|]; [|exfalso; specialize (Hskip eq_refl); rlra].
        exists x. split; [left; reflexivity|]. exact (proj1 (proj2 (Hm x eq_refl))).
      * destruct (Hcov k ltac:(lia) Hy) as [x [Hin Hx]].
        exists x. split; [|exact Hx]. destruct om; [right|]; exact Hin.
    + intros x Hin.
      assert (Hcase : om = Some x \/ In x ms1)
        by (destruct om as [y|]; [destruct Hin as [<-|Hin]; auto | auto]).
      destruct Hcase as [Hx|Hin1].
      * destruct (Hm x Hx) as [Htp [Hidx Hrest]]. rewrite Hidx.
        split; [lia|]. split; [exact Htp | exact Hrest].
      * destruct (Hall x Hin1) as [Hr Hrest]. split; [lia | exact Hrest].
Qed.

Lemma extra_loop_spec : forall cfg m i rs es rest,
  Forall (fun r => 0 <= r < 1)%Q rs ->
  0 < Q2R (treeHeight cfg) -> 0 <= Q2R (treeBaseRadius cfg) ->
  extra_loop cfg i m rs = Some (es, rest) ->
  Forall (fun r => 0 <= r < 1)%Q rest /\ length es = m /\
  forall x, In x es ->
    (ornamentCount cfg + i <= m_index x < ornamentCount cfg + i + m)%nat /\
    (norm2 (m_scatterPosition x) <= scatterRadius cfg * scatterRadius cfg)%Q /\
    (0 <= m_color x <= 3)%Z /\
    (let '(a, b, d) := m_rotationSpeed x in
     -0.01 <= a < 0.01 /\ -0.01 <= b < 0.01 /\ -0.01 <= d < 0.01)%Q /\
    0.2 <= m_size x < 0.44 /\
    let '(px, y, pz) := m_treePosition x in
    let c := Q2R (treeBaseRadius cfg) * (/ 2 - y / Q2R (treeHeight cfg)) in
    0 <= c /\ (0.7 * c) ^ 2 <= px * px + pz * pz <= (1.2 * c) ^ 2 /\
    - (Q2R (treeHeight cfg) / 2) <= y < - (Q2R (treeHeight cfg) / 2) + Q2R (treeHeight cfg) / 3.
Proof.
  intros cfg m. induction m as [|m IH]; intros i rs es rest HD HH HR E.
  - injection E as <- <-. split; [exact HD|]. split; [reflexivity | intros x []].
  - simpl in E.
    destruct (extraOrnament cfg i rs) as [[x1 rs1]|] eqn:E1; [|discriminate].
    destruct (extra_loop cfg (S i) m rs1) as [[es1 rs2]|] eqn:E2; [|discriminate].
    injection E as <- <-.
    destruct (extraOrnament_spec _ _ _ _ _ HD HH HR E1) as [HD1 [Hidx Hrest]].
    destruct (IH (S i) rs1 es1 rs2 HD1 HH HR E2) as [HD2 [Hlen Hall]].
    split; [exact HD2|]. split; [simpl; congruence|].
    intros x [<-|Hin].
    + rewrite Hidx. split; [lia | exact Hrest].
    + destruct (Hall x Hin) as [Hr Hrest']. split; [lia | exact Hrest'].
Qed.

(** [createOrnaments] makes at most [ornamentCount] ornaments on the tree
    (index [i] for the [i]-th), then exactly 100 more in the bottom third of
    the tree; only an ornament in the top quarter ([y_normalized > 0.75])
    can be skipped. *)
Theorem createOrnaments_layout (cfg : Config) (rs : list Q)
    (ms : list meshInit) (rest : list Q) :
  Forall (fun r => 0 <= r < 1)%Q rs ->
  0 < Q2R (treeHeight cfg) -> 0 <= Q2R (treeBaseRadius cfg) ->
  createOrnaments cfg rs = Some (ms, rest) ->
  exists regs extras, ms = regs ++ extras /\
    (length regs <= ornamentCount cfg)%nat /\ length extras = 100%nat /\
    (forall k, (k < ornamentCount cfg)%nat ->
       (tree_y (calculateTreePosition k (ornamentCount cfg) cfg 0 0) +
        Q2R (treeHeight cfg) / 2) / Q2R (treeHeight cfg) <= 0.75 ->
       exists x, In x regs /\ m_index x = k) /\
    (forall x, In x extras ->
       tree_y (m_treePosition x) <
         - (Q2R (treeHeight cfg) / 2) + Q2R (treeHeight cfg) / 3).
Proof.
  intros HD HH HR. unfold createOrnaments.
  destruct (regular_loop cfg 0 (ornamentCount cfg) rs) as [[regs rs1]|] eqn:E1;
    [|discriminate].
  destruct (extra_loop cfg 0 100 rs1) as [[extras rs2]|] eqn:E2; [|discriminate].
  intros H; injection H as <- _.
  destruct (regular_loop_spec _ _ _ _ _ _ HD E1) as [HD1 [Hlen [Hcov _]]].
  destruct (extra_loop_spec _ _ _ _ _ _ HD1 HH HR E2) as [_ [Hlen2 Hall]].
  exists regs, extras. split; [reflexivity|]. split; [exact Hlen|].
  split; [exact Hlen2|]. split.
  - intros k Hk Hy. apply Hcov; [lia | exact Hy].
  - intros x Hin. destruct (Hall x Hin) as [_ [_ [_ [_ [_ Ht]]]]].
    destruct (m_treePosition x) as [[px y] pz]. unfold tree_y. simpl.
    destruct Ht as [_ [_ [_ Hy]]]. exact Hy.
Qed.

(** Every ornament [createOrnaments] makes starts inside the scatter sphere,
    has a tree target between the cone's base and apex at 0.7 to 1.2 times
    the cone's radius from the axis, a colour index in [0 .. 3], rotation
    speeds in [[-0.01, 0.01)] and a size in [[0.2, 0.7)]. *)
Theorem createOrnaments_in_range (cfg : Config) (rs : list Q)
    (ms : list meshInit) (rest : list Q) :
  Forall (fun r => 0 <= r < 1)%Q rs ->
  0 < Q2R (treeHeight cfg) -> 0 <= Q2R (treeBaseRadius cfg) ->
  createOrnaments cfg rs = Some (ms, rest) ->
  forall x, In x ms ->
    (norm2 (m_scatterPosition x) <= scatterRadius cfg * scatterRadius cfg)%Q /\
    (0 <= m_color x <= 3)%Z /\
    (let '(a, b, d) := m_rotationSpeed x in
     -0.01 <= a < 0.01 /\ -0.01 <= b < 0.01 /\ -0.01 <= d < 0.01)%Q /\
    0.2 <= m_size x < 0.7 /\
    let '(px, y, pz) := m_treePosition x in
    let c := Q2R (treeBaseRadius cfg) * (/ 2 - y / Q2R (treeHeight cfg)) in
    0 <= c /\ (0.7 * c) ^ 2 <= px * px + pz * pz <= (1.2 * c) ^ 2 /\
    - (Q2R (treeHeight cfg) / 2) <= y <= Q2R (treeHeight cfg) / 2.
Proof.
  intros HD HH HR. unfold createOrnaments.
  destruct (regular_loop cfg 0 (ornamentCount cfg) rs) as [[regs rs1]|] eqn:E1;
    [|discriminate].
  destruct (extra_loop cfg 0 100 rs1) as [[extras rs2]|] eqn:E2; [|discriminate].
  intros H; injection H as <- _.
  destruct (regular_loop_spec _ _ _ _ _ _ HD E1) as [HD1 [_ [_ Hregs]]].
  destruct (extra_loop_spec _ _ _ _ _ _ HD1 HH HR E2) as [_ [_ Hextras]].
  intros x Hin. apply in_app_or in Hin as [Hin|Hin].
  - destruct (Hregs x Hin) as [Hr [[a [b [Ha [Hb Htp]]]] [Hsc [Hcol [Hrot Hsz]]]]].
    split; [exact Hsc|]. split; [exact Hcol|]. split; [exact Hrot|].
    split; [rlra|].
    rewrite Htp. apply tree_near_cone; try assumption; try lia.
    apply draw_R in Hb. rlra.
  - destruct (Hextras x Hin) as [_ [Hsc [Hcol [Hrot [Hsz Ht]]]]].
    split; [exact Hsc|]. split; [exact Hcol|]. split; [exact Hrot|].
    split; [rlra|].
    destruct (m_treePosition x) as [[px y] pz].
    destruct Ht as [Hc [Hxz Hy]]. split; [exact Hc|]. split; [exact Hxz|].
    assert (0 < Q2R (treeHeight cfg) / 3) by rlra. rlra.
Qed.

End OrnamentProofs.

(** ** Instances of the further properties *)

Lemma Q2R_pos_of (q : Q) : (0 < q)%Q -> (0 < Q2R q)%R.
Proof.
  intros Hq. apply Qlt_Rlt in Hq.
  replace (Q2R 0) with 0%R in Hq by (unfold Q2R; simpl; Stdlib.micromega.Lra.lra).
  exact Hq.
Qed.

Lemma Q2R_nonneg_of (q : Q) : (0 <= q)%Q -> (0 <= Q2R q)%R.
Proof.
  intros Hq. apply Qle_Rle in Hq.
  replace (Q2R 0) with 0%R in Hq by (unfold Q2R; simpl; Stdlib.micromega.Lra.lra).
  exact Hq.
Qed.


Lemma detectGesture_reads_ten_coordinates_witness :
  Gesture.detectGesture
    (firstn 2 Samples.open_hand ++ Gesture.mkLm 9 9 :: skipn 3 Samples.open_hand)
  = Gesture.detectGesture Samples.open_hand.
Proof.
  apply (detectGesture_reads_ten_coordinates
           (firstn 2 Samples.open_hand ++ Gesture.mkLm 9 9 :: skipn 3 Samples.open_hand)
           Samples.open_hand).
  - intros k Hk. simpl in Hk.
    repeat (destruct Hk as [<- | Hk]; [vm_compute; reflexivity |]). contradiction.
  - intros k Hk. simpl in Hk.
    repeat (destruct Hk as [<- | Hk]; [vm_compute; reflexivity |]). contradiction.
Defined.

Lemma updateSpiralRibbon_ranges_witness :
  exists s a k,
    nth_error (RibbonLight.sizes
      (RibbonLight.updateSpiralRibbon (RibbonLight.mkRibbon true [0; 0; 0] [0.5] [0.5])
         1 1 CONFIG)) 0 = Some s /\
    nth_error (RibbonLight.alphas
      (RibbonLight.updateSpiralRibbon (RibbonLight.mkRibbon true [0; 0; 0] [0.5] [0.5])
         1 1 CONFIG)) 0 = Some a /\
    0 <= k <= 1 /\ s == 0.5 + k * 2.5 /\ a == 0.5 + k * 0.5.
Proof.
  pose proof (updateSpiralRibbon_ranges (RibbonLight.mkRibbon true [0; 0; 0] [0.5] [0.5])
                1 1 CONFIG) as W.
  cbv zeta in W. destruct W as (_ & _ & _ & _ & _ & _ & W).
  do 2 eexists.
  destruct (W eq_refl 0%nat _ _ (Nat.lt_0_succ 0) eq_refl eq_refl) as [k Hk].
  exists k. split; [reflexivity |]. split; [reflexivity | exact Hk].
Defined.

Lemma wavePosition_climbs_witness :
  RibbonLight.wavePosition 2 20 - RibbonLight.wavePosition 1 20 == 0.8 * (2 - 1).
Proof.
  destruct (wavePosition_climbs 20 1 2 ltac:(qlra) ltac:(qlra) ltac:(qlra)) as [_ W].
  apply W. vm_compute. reflexivity.
Defined.

Lemma createSnowSystem_ranges_witness :
  exists ps szs vs rest,
    SnowInit.createSnowSystem Samples.small_cfg (repeat (1 # 2) 10) = Some (ps, szs, vs, rest) /\
    length ps = 2%nat /\ Forall (fun sz => 0.2 <= sz < 0.8) szs.
Proof.
  do 4 eexists. split; [reflexivity |].
  destruct (createSnowSystem_ranges Samples.small_cfg (repeat (1 # 2) 10) _ _ _ _
              ltac:(draws01) eq_refl) as (H1 & _ & _ & _ & H5 & _).
  split; [exact H1 | exact H5].
Defined.

Lemma snowStep_respawn_witness :
  exists p' v' rs',
    Snow.snowStep CONFIG false (Snow.mkN (JsNum.Fin 0) (JsNum.Fin 0) (JsNum.Fin 0))
      (Snow.mkN (JsNum.Fin 0) (JsNum.Fin (-9.5)) (JsNum.Fin 0))
      (Snow.mkN (JsNum.Fin 0) (JsNum.Fin (-1)) (JsNum.Fin 0))
      [0.5; 0.5; 0.5; 0.5; 0.25] = Some (p', v', rs') /\
    rs' = [0.25].
Proof.
  do 3 eexists. split; [reflexivity |].
  destruct (snowStep_respawn CONFIG false (Snow.mkN (JsNum.Fin 0) (JsNum.Fin 0) (JsNum.Fin 0))
              0 (-9.5) 0 0 (-1) 0 [0.5; 0.5; 0.5; 0.5; 0.25] _ _ _
              ltac:(draws01) eq_refl) as [W _].
  exact (proj1 (W ltac:(qlra))).
Defined.



Lemma snowStep_pushes_away_witness :
  exists p' v' rs',
    Snow.snowStep CONFIG true (Snow.mkN (JsNum.Fin 0) (JsNum.Fin 0) (JsNum.Fin 0))
      (Snow.mkN (JsNum.Fin 1) (JsNum.Fin 0) (JsNum.Fin 0))
      (Snow.mkN (JsNum.Fin 0) (JsNum.Fin 0) (JsNum.Fin 0)) [] = Some (p', v', rs') /\
    exists wx wz, v' = Snow.mkN (JsNum.Fin wx) (JsNum.Fin 0) (JsNum.Fin wz) /\ 0 < wx.
Proof.
  do 3 eexists. split; [reflexivity |].
  pose proof (snowStep_pushes_away CONFIG 0 0 0 1 0 0 0 0 0 1 [] _ _ _
                ltac:(vm_compute; reflexivity) ltac:(qlra) ltac:(vm_compute; reflexivity)
                ltac:(qlra) eq_refl) as W.
  cbv zeta in W. destruct W as (wx & wz & Hv & _ & _ & Hpos & _).
  exists wx, wz. split; [exact Hv |].
  pose proof (Hpos ltac:(qlra)). qlra.
Defined.

Lemma scatterAll_spec_witness :
  exists os tws resolved rs',
    Choreo.scatterAll 0 [Samples.ornament0] CONFIG [0.5; 0.5; 0.5]
      = Some (os, tws, resolved, rs') /\
    length tws = 1%nat /\ resolved = 0 + 0.3 * 1000.
Proof.
  do 4 eexists. split; [reflexivity |].
  destruct (scatterAll_spec 0 CONFIG [Samples.ornament0] [0.5; 0.5; 0.5] _ _ _ _ eq_refl)
    as (H1 & _ & H3 & _).
  split; [exact H3 | exact H1].
Defined.

Lemma scatter_guard_clears_before_stagger_ends_witness :
  exists s1,
    Choreo.transitionState CONFIG 0 false
      (Choreo.mkApp true false true None [Samples.ornament0] [] [0.5; 0.5; 0.5] None 0)
      = Some s1 /\
    Choreo.animating (Choreo.advance (0 + 2100) s1) = false.
Proof.
  eexists. split; [reflexivity |].
  exact (proj1 (proj2 (scatter_guard_clears_before_stagger_ends
    (Choreo.mkApp true false true None [Samples.ornament0] [] [0.5; 0.5; 0.5] None 0)
    _ 0 eq_refl eq_refl))).
Defined.

Lemma toggleState_idle_witness :
  exists s1, Choreo.toggleState CONFIG 0 Samples.app_idle = Some s1 /\
    Choreo.isGathered s1 = true /\ Choreo.animating s1 = true.
Proof.
  destruct (toggleState_idle CONFIG 0 Samples.app_idle eq_refl) as [H1 H2].
  destruct (H2 eq_refl) as [s1 Hs1].
  exists s1. split; [exact Hs1 |].
  destruct (H1 s1 Hs1) as (Hg & _ & Ha & _).
  split; [exact Hg | exact Ha].
Defined.

Lemma stopHandTracking_rearms_witness :
  exists s1,
    Choreo.onHandResults CONFIG 5000 (Some Samples.fist_hand)
      (HandTracking.stopHandTracking
         (Choreo.mkApp false false false None [Samples.ornament0] [] []
            (Some Gesture.Fist) 0))
      = Some (s1, [Choreo.ASpiral; Choreo.AGather]) /\
    Choreo.isGathered s1 = true.
Proof.
  destruct (stopHandTracking_rearms CONFIG 5000 Samples.fist_hand
              (Choreo.mkApp false false false None [Samples.ornament0] [] []
                 (Some Gesture.Fist) 0)
              ltac:(vm_compute; reflexivity) eq_refl eq_refl) as (_ & W & _).
  destruct (W ltac:(vm_compute; reflexivity)) as (s1 & Hs1 & Hg & _).
  exists s1. split; [exact Hs1 | exact Hg].
Defined.

Section ShapeInstances.
Open Scope R_scope.

Lemma randomOnCone_on_cone_witness :
  let '(x, y, z) := Shapes.randomOnCone 2 1 (1 / 2) 0 in
  - (2 / 2) <= y <= 2 / 2.
Proof.
  pose proof (randomOnCone_on_cone 2 1 (1 / 2) 0 ltac:(rlra)) as W.
  destruct (Shapes.randomOnCone 2 1 (1 / 2) 0) as [[x y] z].
  destruct W as [_ W]. apply W; rlra.
Defined.

Lemma treePosition_near_cone_witness :
  let '(x, y, z) := Placement.calculateTreePosition 1 2 CONFIG 0 (1 / 2) in
  - (Q2R (treeHeight CONFIG) / 2) <= y <= Q2R (treeHeight CONFIG) / 2.
Proof.
  pose proof (treePosition_near_cone 1 2 CONFIG 0 (1 / 2) ltac:(lia) ltac:(lia)
                ltac:(apply Q2R_pos_of; vm_compute; reflexivity)
                ltac:(apply Q2R_nonneg_of; vm_compute; discriminate) ltac:(rlra)) as W.
  destruct (Placement.calculateTreePosition 1 2 CONFIG 0 (1 / 2)) as [[x y] z].
  cbv zeta in W. exact (proj2 (proj2 W)).
Defined.

Lemma createSpiralRibbon_inside_cone_witness :
  exists p0 p2,
    nth_error (Shapes.rpoints (Shapes.createSpiralRibbon CONFIG 3)) 0 = Some p0 /\
    nth_error (Shapes.rpoints (Shapes.createSpiralRibbon CONFIG 3)) 2 = Some p2 /\
    Placement.tree_y p0 < Placement.tree_y p2.
Proof.
  pose proof (createSpiralRibbon_inside_cone CONFIG 3
                ltac:(apply Q2R_pos_of; vm_compute; reflexivity)) as W.
  cbv zeta in W. destruct W as (_ & _ & W).
  do 2 eexists. split; [reflexivity |]. split; [reflexivity |].
  exact (W 0%nat 2%nat _ _ ltac:(lia) eq_refl eq_refl).
Defined.

Lemma createStarGeometry_closed_star_witness :
  nth_error (Shapes.createStarGeometry 2 1 5) 10 = nth_error (Shapes.createStarGeometry 2 1 5) 0 /\
  exists x y, nth_error (Shapes.createStarGeometry 2 1 5) 1 = Some (x, y) /\
    x * x + y * y = 1 ^ 2.
Proof.
  pose proof (createStarGeometry_closed_star 2 1 5 ltac:(lia)) as W.
  cbv zeta in W. destruct W as (_ & H10 & Hr).
  split; [exact H10 |].
  do 2 eexists. split; [reflexivity |]. exact (Hr 1%nat _ _ eq_refl).
Defined.

Lemma createStarDust_shell_witness :
  exists ps cs szs rest,
    Shapes.createStarDust 1 [1 / 2; 1 / 2; 1 / 2; 1 / 2; 1 / 2] = Some (ps, cs, szs, rest) /\
    length ps = 3%nat /\
    exists sz, nth_error szs 0 = Some sz /\ 0.5 <= sz < 2.5.
Proof.
  do 4 eexists. split; [reflexivity |].
  destruct (createStarDust_shell 1 [1 / 2; 1 / 2; 1 / 2; 1 / 2; 1 / 2] _ _ _ _
              ltac:(draws01) eq_refl) as (H1 & _ & _ & W).
  split; [exact H1 |].
  destruct (W 0%nat ltac:(lia)) as (x & y & z & b & sz & _ & _ & _ & _ & _ & _ & _ & _ & Hs & Hr).
  exists sz. split; [exact Hs | exact Hr].
Defined.

Lemma updateStarDust_stays_near_original_witness :
  Shapes.updateStarDust 0 [0; 0; 0] [5; 5; 5] = Shapes.updateStarDust 0 [0; 0; 0] [1; 1; 1] /\
  length (Shapes.updateStarDust 0 [0; 0; 0] [1; 1; 1]) = 3%nat.
Proof.
  pose proof (updateStarDust_stays_near_original 0 [0; 0; 0] [1; 1; 1] eq_refl) as W.
  cbv zeta in W. destruct W as (Hl & _ & Hp).
  split; [exact (Hp [5; 5; 5] eq_refl) | exact Hl].
Defined.

Lemma createSnowSpiral_bounded_witness :
  exists vel',
    Shapes.createSnowSpiral [(1, 0, 0)] [(0, 0, 0)] 1 (0, 0, 0) CONFIG 0 = Some vel' /\
    length vel' = 1%nat.
Proof.
  destruct (createSnowSpiral_bounded [(1, 0, 0)] [(0, 0, 0)] 1 0 0 0 CONFIG 0
              ltac:(apply Q2R_pos_of; vm_compute; reflexivity)) as [Hex Hall].
  destruct (Hex ltac:(simpl; lia)) as [vel' E].
  exists vel'. split; [exact E | exact (proj1 (Hall vel' E))].
Defined.

Lemma createOrnaments_layout_witness :
  exists ms rest,
    OrnamentsInit.createOrnaments Samples.small_cfg (repeat (1 # 2) 1200) = Some (ms, rest) /\
    length ms = 100%nat.
Proof.
  do 2 eexists. split; [reflexivity |].
  destruct (createOrnaments_layout Samples.small_cfg (repeat (1 # 2) 1200) _ _
              ltac:(apply Forall_forall; intros r Hr; apply repeat_spec in Hr; subst; qlra)
              ltac:(apply Q2R_pos_of; vm_compute; reflexivity)
              ltac:(apply Q2R_nonneg_of; vm_compute; discriminate) eq_refl)
    as (regs & extras & -> & Hr & He & _).
  rewrite length_app, He. simpl in Hr. lia.
Defined.

Lemma createOrnaments_in_range_witness :
  exists ms rest,
    OrnamentsInit.createOrnaments Samples.small_cfg (repeat (1 # 2) 1200) = Some (ms, rest) /\
    forall x, In x ms -> (0 <= OrnamentsInit.m_color x <= 3)%Z.
Proof.
  do 2 eexists. split; [reflexivity |].
  intros x Hx.
  exact (proj1 (proj2 (createOrnaments_in_range Samples.small_cfg (repeat (1 # 2) 1200) _ _
              ltac:(apply Forall_forall; intros r Hr; apply repeat_spec in Hr; subst; qlra)
              ltac:(apply Q2R_pos_of; vm_compute; reflexivity)
              ltac:(apply Q2R_nonneg_of; vm_compute; discriminate) eq_refl x Hx))).
Defined.

End ShapeInstances.
